(** * Invoice fraud detector: tamper synthesis pipeline and decision threshold

    A shallow embedding of [src/tamper_generator.py] (the six perturbation
    operators, the operator selector inside [tamper_image] and the batch
    driver [generate_tampered_images]) and of the thresholding step of
    [src/infer.py] and [app.py].

    Python code that touches the file system, the process-wide random
    source, the font registry or standard output is written in a state and
    exception monad over a [world] record.  Raster drawing primitives of
    the imaging library whose pixel-level outcome is not fixed by the
    program (text, ellipse, polyline, Gaussian blur) are taken as an
    interface, [Pillow]; rectangles, crop and paste are written out. *)

From Stdlib Require Import ZArith QArith Lia.
From stdpp Require Import base tactics option list gmap strings pretty fin_maps.

Local Open Scope string_scope.
Local Open Scope list_scope.
Local Open Scope Z_scope.

(** ** Exceptions, results and the program monad *)

Inductive exn : Set :=
  | FileNotFoundError
  | PermissionError
  | IsADirectoryError
  | UnidentifiedImageError
  | OSError
  | ValueError
  | IndexError.

Global Instance exn_eq_dec : EqDecision exn.
Proof. solve_decision. Defined.

Inductive result (A : Type) : Type :=
  | Ok (a : A)
  | Raise (e : exn).
Arguments Ok {A} a.
Arguments Raise {A} e.

(** ** Raster images *)

Definition color : Set := (Z * Z * Z)%type.

(** The entries of the imaging library's colour table used by the program. *)
Definition black : color := (0, 0, 0).
Definition white : color := (255, 255, 255).
Definition red : color := (255, 0, 0).
Definition blue : color := (0, 0, 255).
Definition purple : color := (128, 0, 128).
Definition grey : color := (128, 128, 128).

(** A decoded RGB raster: [px x y] is meaningful for [0 <= x < width] and
    [0 <= y < height]. *)
Record image : Type := Image {
  width : Z;
  height : Z;
  px : Z → Z → color
}.

Definition in_image (img : image) (x y : Z) : Prop :=
  0 ≤ x < width img ∧ 0 ≤ y < height img.

Definition same_size (a b : image) : Prop :=
  width a = width b ∧ height a = height b.

Definition same_pixels (a b : image) : Prop :=
  same_size a b ∧ ∀ x y, in_image a x y → px a x y = px b x y.

Definition differs_somewhere (a b : image) : Prop :=
  ∃ x y, in_image a x y ∧ px a x y ≠ px b x y.

Inductive font : Set :=
  | TrueType (name : string) (size : Z)
  | DefaultFont.

(** What a directory entry holds. *)
Inductive file : Type :=
  | ImageFile (img : image)
  | OtherFile
  | Directory.

Inductive dir_state : Type :=
  | Missing
  | Unreadable
  | Listing (entries : gmap string file).

(** The two directories of the program. *)
Inductive dir_id : Set := REAL_DIR | TAMPERED_DIR.

Definition dir_name (d : dir_id) : string :=
  match d with
  | REAL_DIR => "data/real"
  | TAMPERED_DIR => "data/tampered"
  end.

Definition path : Set := (dir_id * string)%type.

Definition os_path_join (d : dir_id) (name : string) : path := (d, name).

(** ** The world the program runs in

    [tampered_dir] is a plain map from entry names to stored images: the
    module creates the output directory when it is loaded
    ([os.makedirs(TAMPERED_DIR, exist_ok=True)]), before any function can be
    called, and writes into it are taken to succeed.  [entropy] is the
    stream of outcomes of the process-wide random source, one element per
    call of [_randbelow], and [cursor] the number of such calls made so
    far. *)
Record world : Type := World {
  real_dir : dir_state;
  tampered_dir : gmap string image;
  installed_fonts : string → bool;
  entropy : nat → Z;
  cursor : nat;
  stdout : list string
}.

Definition M (A : Type) : Type := world → result A * world.

Definition ret {A} (a : A) : M A := λ w, (Ok a, w).

Definition raise {A} (e : exn) : M A := λ w, (Raise e, w).

Definition bind {A B} (m : M A) (k : A → M B) : M B :=
  λ w, match m w with
       | (Ok a, w') => k a w'
       | (Raise e, w') => (Raise e, w')
       end.

(** [try: m except: h] with a bare [except]. *)
Definition try_except {A} (m : M A) (h : M A) : M A :=
  λ w, match m w with
       | (Ok a, w') => (Ok a, w')
       | (Raise _, w') => h w'
       end.

Global Instance M_ret : MRet M := @ret.
Global Instance M_bind : MBind M := λ A B k m, bind m k.

(** ** The random module *)

Definition set_cursor (c : nat) (w : world) : world :=
  World (real_dir w) (tampered_dir w) (installed_fonts w) (entropy w) c (stdout w).

(** [_randbelow(n)] for [0 < n]: the outcome of the call, the next element
    of the stream reduced into [0, n).  The loop inside the library that
    may read several raw words before it accepts one is not modelled: the
    stream has one element per call. *)
Definition randbelow (n : Z) : M Z :=
  λ w, (Ok (entropy w (cursor w) `mod` n), set_cursor (S (cursor w)) w).

(** [random.randint(a, b)]: [randrange(a, b + 1)], which raises
    [ValueError] on an empty range. *)
Definition randint (a b : Z) : M Z :=
  if decide (b - a + 1 ≤ 0) then raise ValueError
  else (r ← randbelow (b - a + 1); ret (a + r)).

(** [random.choice(seq)]: [seq[_randbelow(len(seq))]]. *)
Definition choice {A} (seq : list A) : M A :=
  match seq with
  | [] => raise IndexError
  | _ => i ← randbelow (Z.of_nat (length seq));
         match seq !! Z.to_nat i with
         | Some x => ret x
         | None => raise IndexError
         end
  end.

(** The selection loop of [random.sample] (its pool branch, the one taken
    unless the population is far larger than the sample): at each step an
    index [j] below the number of remaining candidates is drawn, [pool[j]]
    is taken and the last remaining candidate is moved into slot [j]. *)
Fixpoint sample_loop {A} (k : nat) (pool : list A) : M (list A) :=
  match k with
  | O => ret []
  | S k' =>
      j ← randbelow (Z.of_nat (length pool));
      match pool !! Z.to_nat j, last pool with
      | Some x, Some z =>
          rest ← sample_loop k' (take (length pool - 1) (<[Z.to_nat j := z]> pool));
          ret (x :: rest)
      | _, _ => raise IndexError
      end
  end.

(** [random.sample(population, k)]. *)
Definition sample {A} (population : list A) (k : Z) : M (list A) :=
  if decide (0 ≤ k ≤ Z.of_nat (length population))
  then sample_loop (Z.to_nat k) population
  else raise ValueError.

(** ** Loops *)

(** [for x in l: body], where [s] is the local object the body mutates. *)
Fixpoint for_in {A S} (l : list A) (body : A → S → M S) (s : S) : M S :=
  match l with
  | [] => mret s
  | x :: l' => s' ← body x s; for_in l' body s'
  end.

(** [enumerate(l)], counting from [i]. *)
Fixpoint enumerate_from {A} (i : nat) (l : list A) : list (nat * A) :=
  match l with
  | [] => []
  | x :: l' => (i, x) :: enumerate_from (S i) l'
  end.

Definition enumerate {A} (l : list A) : list (nat * A) := enumerate_from 0 l.

Definition range (n : nat) : list nat := seq 0 n.

(** ** The os module, fonts and standard output *)

Definition read_dir (d : dir_id) (w : world) : dir_state :=
  match d with
  | REAL_DIR => real_dir w
  | TAMPERED_DIR => Listing (ImageFile <$> tampered_dir w)
  end.

Definition set_real_dir (s : dir_state) (w : world) : world :=
  World s (tampered_dir w) (installed_fonts w) (entropy w) (cursor w) (stdout w).

Definition set_tampered_dir (t : gmap string image) (w : world) : world :=
  World (real_dir w) t (installed_fonts w) (entropy w) (cursor w) (stdout w).

(** [os.listdir(d)]: the entry names, in the order the map yields them. *)
Definition listdir (d : dir_id) : M (list string) :=
  λ w, match read_dir d w with
       | Missing => (Raise FileNotFoundError, w)
       | Unreadable => (Raise PermissionError, w)
       | Listing entries => (Ok (map_to_list entries).*1, w)
       end.

(** [print(msg)] *)
Definition print (msg : string) : M unit :=
  λ w, (Ok tt, World (real_dir w) (tampered_dir w) (installed_fonts w)
                     (entropy w) (cursor w) (stdout w ++ [msg])).

(** [ImageFont.truetype(name, size)] *)
Definition ImageFont_truetype (name : string) (size : Z) : M font :=
  λ w, if installed_fonts w name then (Ok (TrueType name size), w)
       else (Raise OSError, w).

(** [ImageFont.load_default()] *)
Definition ImageFont_load_default : M font := mret DefaultFont.

(** [Image.open(p).convert("RGB")]: directory entries that decode hold
    their RGB raster. *)
Definition Image_open (p : path) : M image :=
  λ w, match read_dir p.1 w with
       | Missing => (Raise FileNotFoundError, w)
       | Unreadable => (Raise PermissionError, w)
       | Listing entries =>
           match entries !! p.2 with
           | None => (Raise FileNotFoundError, w)
           | Some (ImageFile img) => (Ok img, w)
           | Some OtherFile => (Raise UnidentifiedImageError, w)
           | Some Directory => (Raise IsADirectoryError, w)
           end
       end.

(** [img.save(p)]: the entry [p] holds [img] afterwards, whether or not it
    existed.  The codec is not modelled: the stored file decodes to the
    raster that was saved. *)
Definition Image_save (img : image) (p : path) : M unit :=
  λ w, match p.1 with
       | TAMPERED_DIR => (Ok tt, set_tampered_dir (<[p.2 := img]> (tampered_dir w)) w)
       | REAL_DIR =>
           match real_dir w with
           | Missing => (Raise FileNotFoundError, w)
           | Unreadable => (Raise PermissionError, w)
           | Listing entries =>
               match entries !! p.2 with
               | Some Directory => (Raise IsADirectoryError, w)
               | _ => (Ok tt, set_real_dir (Listing (<[p.2 := ImageFile img]> entries)) w)
               end
           end
       end.

(** ** Drawing *)

(** The drawing primitives whose rasterisation the program does not fix:
    each gives the colour of pixel [(x, y)] of the canvas after the call. *)
Class Pillow : Type := {
  (** [draw.text((x0, y0), s, fill, font)] *)
  text_pixels : font → string → color → Z → Z → image → Z → Z → color;
  (** [draw.ellipse([x0, y0, x1, y1], fill)] *)
  ellipse_pixels : Z → Z → Z → Z → color → image → Z → Z → color;
  (** [draw.line(points, fill, width)] *)
  line_pixels : list (Z * Z) → color → Z → image → Z → Z → color;
  (** [img.filter(ImageFilter.GaussianBlur(radius))] *)
  blur_pixels : Z → image → Z → Z → color
}.

Definition in_box (x1 y1 x2 y2 x y : Z) : bool :=
  bool_decide (x1 ≤ x ≤ x2 ∧ y1 ≤ y ≤ y2).

(** [draw.rectangle([x1, y1, x2, y2], fill)]: both corners are included. *)
Definition draw_rectangle (x1 y1 x2 y2 : Z) (fill : color) (img : image) : image :=
  Image (width img) (height img)
        (λ x y, if in_box x1 y1 x2 y2 x y then fill else px img x y).

(** [img.crop((l, u, r, b))]: a new raster of size [(r - l, b - u)]; what
    lies outside [img] is black. *)
Definition crop (l u r b : Z) (img : image) : image :=
  Image (r - l) (b - u)
        (λ i j, if bool_decide (0 ≤ l + i < width img ∧ 0 ≤ u + j < height img)
                then px img (l + i) (u + j) else black).

(** [img.paste(patch, (x0, y0))] *)
Definition paste (patch : image) (x0 y0 : Z) (img : image) : image :=
  Image (width img) (height img)
        (λ x y, if bool_decide (x0 ≤ x < x0 + width patch ∧ y0 ≤ y < y0 + height patch)
                then px patch (x - x0) (y - y0) else px img x y).

Section Tamper.
Context `{Pillow}.

Definition draw_text (x0 y0 : Z) (s : string) (fill : color) (f : font)
    (img : image) : image :=
  Image (width img) (height img) (text_pixels f s fill x0 y0 img).

Definition draw_ellipse (x0 y0 x1 y1 : Z) (fill : color) (img : image) : image :=
  Image (width img) (height img) (ellipse_pixels x0 y0 x1 y1 fill img).

Definition draw_line (points : list (Z * Z)) (fill : color) (w : Z)
    (img : image) : image :=
  Image (width img) (height img) (line_pixels points fill w img).

Definition GaussianBlur (radius : Z) (img : image) : image :=
  Image (width img) (height img) (blur_pixels radius img).

(** ** The six perturbation operators *)

Definition apply_black_box (img : image) : M image :=
  let w := width img in
  let h := height img in
  x1 ← randint 50 (w `div` 2);
  y1 ← randint 50 (h `div` 2);
  dx ← randint 50 150;
  let x2 := x1 + dx in
  dy ← randint 20 50;
  let y2 := y1 + dy in
  mret (draw_rectangle x1 y1 x2 y2 black img).

Definition apply_fake_text (img : image) : M image :=
  let w := width img in
  let h := height img in
  font ← try_except (ImageFont_truetype "arial.ttf" 22) ImageFont_load_default;
  x ← randint 100 (w - 150);
  y ← randint 100 (h - 50);
  mret (draw_text x y "FAKE $999" red font img).

Definition apply_blur_patch (img : image) : M image :=
  let w := width img in
  let h := height img in
  x ← randint 50 (w - 200);
  y ← randint 50 (h - 100);
  let patch := GaussianBlur 5 (crop x y (x + 150) (y + 50) img) in
  mret (paste patch x y img).

Definition apply_whiteout (img : image) : M image :=
  let w := width img in
  let h := height img in
  x1 ← randint 100 (w - 200);
  y1 ← randint 100 (h - 100);
  dx ← randint 80 150;
  let x2 := x1 + dx in
  dy ← randint 20 40;
  let y2 := y1 + dy in
  mret (draw_rectangle x1 y1 x2 y2 white img).

Inductive shape_kind : Set := ellipse | rectangle.

Definition overlay_random_shape (img : image) : M image :=
  let w := width img in
  let h := height img in
  x ← randint 50 (w - 100);
  y ← randint 50 (h - 100);
  size ← randint 30 60;
  shape ← choice [ellipse; rectangle];
  color ← choice [blue; purple; grey];
  match shape with
  | ellipse => mret (draw_ellipse x y (x + size) (y + size) color img)
  | rectangle => mret (draw_rectangle x y (x + size) (y + size) color img)
  end.

Definition apply_fake_signature (img : image) : M image :=
  let w := width img in
  let h := height img in
  x ← randint 100 (w - 200);
  y ← randint (h - 150) (h - 80);
  for_in (range 3) (λ _ img,
    curve ← mapM (λ i : nat, j ← randint (-10) 10;
                             mret (x + Z.of_nat i * 15, y + j)) (range 5);
    mret (draw_line curve black 2 img)) img.

(** ** The selector and the driver *)

(** The operators as first-class values. *)
Inductive method : Set :=
  | fn_apply_black_box
  | fn_apply_fake_text
  | fn_apply_blur_patch
  | fn_apply_whiteout
  | fn_overlay_random_shape
  | fn_apply_fake_signature.

Global Instance method_eq_dec : EqDecision method.
Proof. solve_decision. Defined.

(** [method(img)] *)
Definition call (m : method) (img : image) : M image :=
  match m with
  | fn_apply_black_box => apply_black_box img
  | fn_apply_fake_text => apply_fake_text img
  | fn_apply_blur_patch => apply_blur_patch img
  | fn_apply_whiteout => apply_whiteout img
  | fn_overlay_random_shape => overlay_random_shape img
  | fn_apply_fake_signature => apply_fake_signature img
  end.

Definition tamper_methods : list method :=
  [ fn_apply_black_box;
    fn_apply_fake_text;
    fn_apply_blur_patch;
    fn_apply_whiteout;
    fn_overlay_random_shape;
    fn_apply_fake_signature ].

Definition tamper_image (img_path save_path : path) : M unit :=
  img ← Image_open img_path;
  method ← choice tamper_methods;
  tampered_img ← call method img;
  Image_save tampered_img save_path.

Definition tampered_name (i : nat) : string :=
  "tampered_" +:+ pretty i +:+ ".jpg".

Definition summary (k : nat) : string :=
  "✅ Generated " +:+ pretty k +:+ " tampered images in " +:+ dir_name TAMPERED_DIR +:+ "/".

Definition generate_tampered_images (n : Z) : M unit :=
  real_imgs ← listdir REAL_DIR;
  selected ← sample real_imgs (Z.min n (Z.of_nat (length real_imgs)));
  for_in (enumerate selected) (λ '(i, filename) _,
    let real_path := os_path_join REAL_DIR filename in
    let tamper_path := os_path_join TAMPERED_DIR (tampered_name i) in
    tamper_image real_path tamper_path) tt;;
  print (summary (length selected)).

End Tamper.

(** ** The decision threshold of the inference pipeline *)

(** A Python float as the classifier produces it: a finite value (every
    finite binary64 number is a rational) or not-a-number. *)
Inductive pyfloat : Set :=
  | Finite (q : Q)
  | NaN.

(** [a > b] on floats: false as soon as one side is not a number. *)
Definition float_gt (a b : pyfloat) : bool :=
  match a, b with
  | Finite x, Finite y => if Qlt_le_dec y x then true else false
  | _, _ => false
  end.

Definition half : pyfloat := Finite (1 # 2).

Inductive device : Set := cpu | cuda.

Module infer.
Section Inference.
(** Tensors, the network and the sigmoid belong to the tensor library. *)
Variables (tensor logit : Type) (sigmoid_item : logit → pyfloat).

Definition predict (model : tensor → logit) (image_tensor : tensor)
    (dev : device) : Z * pyfloat :=
  let output := model image_tensor in
  let prob := sigmoid_item output in
  let pred := if float_gt prob half then 1 else 0 in
  (pred, prob).

(** The label computed by [main] from what [predict] returns. *)
Definition main_label (model : tensor → logit) (image_tensor : tensor)
    (dev : device) : string :=
  let '(pred, prob) := predict model image_tensor dev in
  if decide (pred = 1) then "Tampered ❌" else "Real ✅".
End Inference.
End infer.

Module app.
Section Script.
Variables (tensor logit : Type) (sigmoid_item : logit → pyfloat).

(** The prediction block of the upload script. *)
Definition pred (model : tensor → logit) (image_tensor : tensor) : Z :=
  let output := model image_tensor in
  let prob := sigmoid_item output in
  if float_gt prob half then 1 else 0.

Definition label (model : tensor → logit) (image_tensor : tensor) : string :=
  if decide (pred model image_tensor = 1) then "Tampered ❌" else "Real ✅".
End Script.
End app.

(** ** A small rasteriser and sample worlds, for running the program *)

(** Text as one filled 10-by-11 cell per character, an ellipse by its
    inequality, a polyline by its vertices, blur by the mean of the two
    horizontal neighbours. *)
Definition cell_text (f : font) (s : string) (fill : color) (x0 y0 : Z)
    (img : image) (x y : Z) : color :=
  if in_box x0 y0 (x0 + 10 * Z.of_nat (String.length s) - 1) (y0 + 10) x y
  then fill else px img x y.

Definition disc (x0 y0 x1 y1 : Z) (fill : color) (img : image) (x y : Z) : color :=
  let a := x1 - x0 in
  let b := y1 - y0 in
  if bool_decide ((2 * x - x0 - x1) ^ 2 * b ^ 2 + (2 * y - y0 - y1) ^ 2 * a ^ 2
                  ≤ a ^ 2 * b ^ 2)
  then fill else px img x y.

Definition dots (points : list (Z * Z)) (fill : color) (w : Z) (img : image)
    (x y : Z) : color :=
  if existsb (λ p, in_box p.1 p.2 (p.1 + w - 1) (p.2 + w - 1) x y) points
  then fill else px img x y.

Definition mean3 (radius : Z) (img : image) (x y : Z) : color :=
  let '(r1, g1, b1) := px img (Z.max 0 (x - 1)) y in
  let '(r2, g2, b2) := px img x y in
  let '(r3, g3, b3) := px img (Z.min (width img - 1) (x + 1)) y in
  ((r1 + r2 + r3) `div` 3, (g1 + g2 + g3) `div` 3, (b1 + b2 + b3) `div` 3).

Definition sample_pillow : Pillow :=
  {| text_pixels := cell_text; ellipse_pixels := disc;
     line_pixels := dots; blur_pixels := mean3 |}.

Definition solid (w h : Z) (c : color) : image := Image w h (λ _ _, c).

Definition no_fonts : string → bool := λ _, false.

(** A raw draw stream that counts upwards from [seed]. *)
Definition counter (seed : Z) : nat → Z := λ i, seed + Z.of_nat i.

Definition world_of (entries : gmap string file) (seed : Z) : world :=
  World (Listing entries) ∅ no_fonts (counter seed) 0 [].

Definition two_invoices : gmap string file :=
  {[ "a.png" := ImageFile (solid 300 200 white);
     "b.png" := ImageFile (solid 400 300 black) ]}.

Definition tiny_source : gmap string file :=
  {[ "tiny.png" := ImageFile (solid 10 10 white) ]}.

Definition stamp_source : gmap string file :=
  {[ "stamp.png" := ImageFile (solid 99 99 white) ]}.

Definition black_page : gmap string file :=
  {[ "black.png" := ImageFile (solid 256 256 black) ]}.

Definition no_source_world : world :=
  World Missing ∅ no_fonts (counter 0) 0 [].

Definition mixed_source : gmap string file :=
  {[ "a.png" := ImageFile (solid 300 200 white);
     "notes.txt" := OtherFile ]}.

Definition notes_only : gmap string file :=
  {[ "notes.txt" := OtherFile ]}.

Definition arial_only : string → bool := λ name, bool_decide (name = "arial.ttf").

(** ** Specification vocabulary *)

(** Everything but the position in the random stream is as before. *)
Definition frame (w w' : world) : Prop :=
  real_dir w' = real_dir w ∧ tampered_dir w' = tampered_dir w ∧
  installed_fonts w' = installed_fonts w ∧ entropy w' = entropy w ∧
  stdout w' = stdout w.

(** The source directory, the fonts, the random stream and standard output
    are as before; the output directory and the position in the stream may
    have moved. *)
Definition quiet (w w' : world) : Prop :=
  real_dir w' = real_dir w ∧ installed_fonts w' = installed_fonts w ∧
  entropy w' = entropy w ∧ stdout w' = stdout w.

(** [m] consumes random draws and nothing else; it raises nothing but
    [ValueError]; what it returns satisfies [P]. *)
Definition rng_op {A} (P : A → Prop) (m : M A) : Prop :=
  ∀ w, frame w (m w).2 ∧
       match (m w).1 with Ok a => P a | Raise e => e = ValueError end.

(** [m] returns, whatever the world, with a result in [P]. *)
Definition total {A} (P : A → Prop) (m : M A) : Prop :=
  ∀ w, ∃ a, (m w).1 = Ok a ∧ P a.

(** [m] raises [ValueError], whatever the world. *)
Definition fails {A} (m : M A) : Prop :=
  ∀ w, (m w).1 = Raise ValueError.

(** The output directory after the writes [ws], oldest first. *)
Definition apply_writes (ws : list (string * image)) (t : gmap string image) :
    gmap string image :=
  foldl (λ d kv, <[kv.1 := kv.2]> d) t ws.

(** [m] never looks at the output directory: with any other contents [t]
    in it, [m] has the same result, performs the same writes and leaves
    the rest of the world the same. *)
Definition blind {A} (m : M A) : Prop :=
  ∀ w, ∃ ws, ∀ t,
    m (set_tampered_dir t w)
    = ((m w).1, set_tampered_dir (apply_writes ws t) (m w).2).

(** The failure of the driver to list its source directory. *)
Definition MissingSourceDirectory (e : exn) : Prop :=
  e = FileNotFoundError ∨ e = PermissionError.

(** The parameter ranges an operator draws from are all non-empty. *)
Definition fits (m : method) (img : image) : Prop :=
  let w := width img in
  let h := height img in
  match m with
  | fn_apply_black_box => 50 ≤ w `div` 2 ∧ 50 ≤ h `div` 2
  | fn_apply_fake_text => 100 ≤ w - 150 ∧ 100 ≤ h - 50
  | fn_apply_blur_patch => 50 ≤ w - 200 ∧ 50 ≤ h - 100
  | fn_apply_whiteout => 100 ≤ w - 200 ∧ 100 ≤ h - 100
  | fn_overlay_random_shape => 50 ≤ w - 100 ∧ 50 ≤ h - 100
  | fn_apply_fake_signature => 100 ≤ w - 200
  end.

Global Instance fits_dec m img : Decision (fits m img).
Proof. destruct m; simpl; apply _. Defined.

(** Entry [name] of the source directory decodes to [img]. *)
Definition source_image (w : world) (name : string) (img : image) : Prop :=
  ∃ entries, real_dir w = Listing entries ∧ entries !! name = Some (ImageFile img).

(** A directory entry that is an image wide and high enough for every
    operator. *)
Definition roomy (f : file) : Prop :=
  match f with
  | ImageFile img => 300 ≤ width img ∧ 200 ≤ height img
  | _ => False
  end.

Definition decodable (f : file) : Prop :=
  match f with ImageFile _ => True | _ => False end.

(** The names [tampered_0.jpg] ... [tampered_{k-1}.jpg]. *)
Definition tampered_names (k : nat) : gset string :=
  list_to_set (tampered_name <$> seq 0 k).

(** The number of calls of [random.randint] and [random.choice] an operator
    makes when every range is non-empty. *)
Definition random_calls (m : method) : nat :=
  match m with
  | fn_apply_black_box => 4
  | fn_apply_fake_text => 2
  | fn_apply_blur_patch => 2
  | fn_apply_whiteout => 4
  | fn_overlay_random_shape => 5
  | fn_apply_fake_signature => 17
  end.

(** [m], when it returns, has made exactly [n] calls of [_randbelow]. *)
Definition ticks {A} (n : nat) (m : M A) : Prop :=
  ∀ w a w', m w = (Ok a, w') → cursor w' = (cursor w + n)%nat.

(** One stroke of the forged signature started at [(x, y)]: five points,
    15 pixels apart horizontally, each within 10 pixels of [y]. *)
Definition stroke (x y : Z) (curve : list (Z * Z)) : Prop :=
  length curve = 5%nat ∧
  ∀ i p, curve !! i = Some p →
         p.1 = x + Z.of_nat i * 15 ∧ y - 10 ≤ p.2 ≤ y + 10.

(** The share of the equally likely outcomes [0 .. len(seq) - 1] of
    [_randbelow(len(seq))] on which [random.choice(seq)] returns [x]. *)
Definition choice_share `{EqDecision A} (seq : list A) (x : A) : Q :=
  Z.of_nat (length (filter (λ y, y = x) seq)) # Pos.of_nat (length seq).

(** ** The monad and the random module *)

Lemma frame_refl w : frame w w.
Proof. by repeat split. Qed.

Lemma frame_trans w1 w2 w3 : frame w1 w2 → frame w2 w3 → frame w1 w3.
Proof. unfold frame. intros (?&?&?&?&?) (?&?&?&?&?). repeat split; congruence. Qed.

Lemma frame_set_cursor c w : frame w (set_cursor c w).
Proof. by repeat split. Qed.

Lemma bind_Ok {A B} (m : M A) (k : A → M B) w a w' :
  m w = (Ok a, w') → (m ≫= k) w = k a w'.
Proof. unfold mbind, M_bind, bind. by intros ->. Qed.

Lemma bind_Raise {A B} (m : M A) (k : A → M B) w e w' :
  m w = (Raise e, w') → (m ≫= k) w = (Raise e, w').
Proof. unfold mbind, M_bind, bind. by intros ->. Qed.

Lemma rng_op_ret {A} (P : A → Prop) a : P a → rng_op P (mret a).
Proof. intros HP w. split; [apply frame_refl | done]. Qed.

Lemma rng_op_bind {A B} (P : A → Prop) (Q : B → Prop) (m : M A) (k : A → M B) :
  rng_op P m → (∀ a, P a → rng_op Q (k a)) → rng_op Q (m ≫= k).
Proof.
  intros Hm Hk w. specialize (Hm w).
  destruct (m w) as [[a|e] w1] eqn:E; simpl in Hm; destruct Hm as [Hf HP].
  - rewrite (bind_Ok _ _ _ _ _ E). destruct (Hk a HP w1) as [Hf' HQ].
    split; [by eapply frame_trans | done].
  - by rewrite (bind_Raise _ _ _ _ _ E).
Qed.

Lemma total_ret {A} (P : A → Prop) a : P a → total P (mret a).
Proof. intros HP w. by exists a. Qed.

Lemma total_bind {A B} (P : A → Prop) (Q : B → Prop) (m : M A) (k : A → M B) :
  total P m → (∀ a, P a → total Q (k a)) → total Q (m ≫= k).
Proof.
  intros Hm Hk w. destruct (Hm w) as (a & Ea & HP).
  destruct (m w) as [r w1] eqn:E; simpl in Ea; subst r.
  rewrite (bind_Ok _ _ _ _ _ E). apply (Hk a HP).
Qed.

Lemma fails_now {A B} (m : M A) (k : A → M B) : fails m → fails (m ≫= k).
Proof.
  intros Hm w. specialize (Hm w).
  destruct (m w) as [r w1] eqn:E; simpl in Hm; subst r.
  by rewrite (bind_Raise _ _ _ _ _ E).
Qed.

Lemma fails_later {A B} (P : A → Prop) (m : M A) (k : A → M B) :
  total P m → (∀ a, P a → fails (k a)) → fails (m ≫= k).
Proof.
  intros Hm Hk w. destruct (Hm w) as (a & Ea & HP).
  destruct (m w) as [r w1] eqn:E; simpl in Ea; subst r.
  rewrite (bind_Ok _ _ _ _ _ E). apply (Hk a HP).
Qed.

Lemma randbelow_range n w : 0 < n → 0 ≤ entropy w (cursor w) `mod` n < n.
Proof. intros. by apply Z.mod_pos_bound. Qed.

Lemma rng_op_randint a b : rng_op (λ v, a ≤ v ≤ b) (randint a b).
Proof.
  intros w. unfold randint. case_decide as Hab.
  - split; [apply frame_refl | done].
  - unfold mbind, M_bind, bind, randbelow. cbn. split; [apply frame_set_cursor|].
    assert (0 < b - a + 1) as Hn by lia.
    pose proof (randbelow_range (b - a + 1) w Hn). lia.
Qed.

Lemma total_randint a b : a ≤ b → total (λ v, a ≤ v ≤ b) (randint a b).
Proof.
  intros Hab w. unfold randint. case_decide; [lia|].
  unfold mbind, M_bind, bind, randbelow. cbn. eexists. split; [reflexivity|].
  assert (0 < b - a + 1) as Hn by lia.
  pose proof (randbelow_range (b - a + 1) w Hn). lia.
Qed.

Lemma fails_randint a b : b < a → fails (randint a b).
Proof. intros Hab w. unfold randint. case_decide; [done | lia]. Qed.

Lemma choice_unfold {A} (seq : list A) w :
  seq ≠ [] →
  ∃ x, seq !! Z.to_nat (entropy w (cursor w) `mod` Z.of_nat (length seq)) = Some x ∧
       choice seq w = (Ok x, set_cursor (S (cursor w)) w).
Proof.
  intros Hne. destruct seq as [|y seq]; [done|].
  assert (0 < Z.of_nat (length (y :: seq))) as Hn by (cbn [length]; lia).
  pose proof (randbelow_range (Z.of_nat (length (y :: seq))) w Hn) as Hr.
  destruct (lookup_lt_is_Some_2 (y :: seq)
    (Z.to_nat (entropy w (cursor w) `mod` Z.of_nat (length (y :: seq))))) as [x Hx].
  { cbn [length] in *. lia. }
  exists x. split; [done|].
  unfold choice, mbind, M_bind, bind, randbelow. by rewrite Hx.
Qed.

Lemma rng_op_choice {A} (seq : list A) :
  seq ≠ [] → rng_op (λ x, x ∈ seq) (choice seq).
Proof.
  intros Hne w. destruct (choice_unfold seq w Hne) as (x & Hx & ->).
  split; [apply frame_set_cursor|]. by eapply list_elem_of_lookup_2.
Qed.

Lemma total_choice {A} (seq : list A) :
  seq ≠ [] → total (λ x, x ∈ seq) (choice seq).
Proof.
  intros Hne w. destruct (choice_unfold seq w Hne) as (x & Hx & ->).
  exists x. split; [done|]. by eapply list_elem_of_lookup_2.
Qed.

Lemma rng_op_for_in {A S} (I : S → Prop) (l : list A) (body : A → S → M S) s :
  (∀ x s, I s → rng_op I (body x s)) → I s → rng_op I (for_in l body s).
Proof.
  intros Hbody. revert s. induction l as [|x l IH]; intros s Hs; simpl.
  - by apply rng_op_ret.
  - eapply rng_op_bind; [by apply Hbody | apply IH].
Qed.

Lemma total_for_in {A S} (I : S → Prop) (l : list A) (body : A → S → M S) s :
  (∀ x s, I s → total I (body x s)) → I s → total I (for_in l body s).
Proof.
  intros Hbody. revert s. induction l as [|x l IH]; intros s Hs; simpl.
  - by apply total_ret.
  - eapply total_bind; [by apply Hbody | apply IH].
Qed.

Lemma rng_op_mapM {A B} (f : A → M B) (l : list A) :
  (∀ x, rng_op (λ _, True) (f x)) → rng_op (λ _, True) (mapM f l).
Proof.
  intros Hf. induction l as [|x l IH]; simpl.
  - by apply rng_op_ret.
  - eapply rng_op_bind; [apply Hf | intros ? _].
    eapply rng_op_bind; [apply IH | intros ? _]. by apply rng_op_ret.
Qed.

Lemma total_mapM {A B} (f : A → M B) (l : list A) :
  (∀ x, total (λ _, True) (f x)) → total (λ _, True) (mapM f l).
Proof.
  intros Hf. induction l as [|x l IH]; simpl.
  - by apply total_ret.
  - eapply total_bind; [apply Hf | intros ? _].
    eapply total_bind; [apply IH | intros ? _]. by apply total_ret.
Qed.

(** The font probe of [apply_fake_text]: whatever is installed, a font
    comes back and the world is as before. *)
Lemma font_probe w :
  try_except (ImageFont_truetype "arial.ttf" 22) ImageFont_load_default w
  = (Ok (if installed_fonts w "arial.ttf" then TrueType "arial.ttf" 22
         else DefaultFont), w).
Proof. unfold try_except, ImageFont_truetype. by destruct (installed_fonts w _). Qed.

Lemma rng_op_font_probe :
  rng_op (λ _, True)
    (try_except (ImageFont_truetype "arial.ttf" 22) ImageFont_load_default).
Proof. intros w. rewrite font_probe. split; [apply frame_refl | done]. Qed.

Lemma total_font_probe :
  total (λ _, True)
    (try_except (ImageFont_truetype "arial.ttf" 22) ImageFont_load_default).
Proof. intros w. rewrite font_probe. by eexists. Qed.

(** ** The operators *)

Section Operators.
Context `{Pillow}.

Ltac rng_steps :=
  repeat first
    [ by apply rng_op_ret
    | eapply rng_op_bind; [apply rng_op_randint | intros ? ?]
    | eapply rng_op_bind; [by apply rng_op_choice | intros ? ?]
    | eapply rng_op_bind; [apply rng_op_font_probe | intros ? ?] ].

Ltac total_steps :=
  repeat first
    [ by apply total_ret
    | eapply total_bind; [apply total_randint; lia | intros ? ?]
    | eapply total_bind; [by apply total_choice | intros ? ?]
    | eapply total_bind; [apply total_font_probe | intros ? ?] ].

(** Draws that must succeed before the first empty range is reached. *)
Ltac skip_draw :=
  eapply fails_later; [apply total_randint; lia | intros ? ?].

Ltac empty_range := apply fails_now, fails_randint; lia.

(** Every operator only consumes random draws, raises nothing but
    [ValueError], and returns a raster of the size it was given. *)
Lemma call_rng_op m img : rng_op (λ img', same_size img' img) (call m img).
Proof.
  destruct m; simpl;
    [ unfold apply_black_box | unfold apply_fake_text | unfold apply_blur_patch
    | unfold apply_whiteout | unfold overlay_random_shape
    | unfold apply_fake_signature ]; rng_steps.
  - match goal with |- context [match ?s with ellipse => _ | rectangle => _ end] =>
      destruct s end; by apply rng_op_ret.
  - apply rng_op_for_in; [|done]. intros _ s Hs.
    eapply rng_op_bind.
    + apply rng_op_mapM. intros i. rng_steps.
    + intros curve _. by apply rng_op_ret.
Qed.

(** On an image whose size leaves every parameter range non-empty the
    operator returns. *)
Lemma call_total m img :
  fits m img → total (λ img', same_size img' img) (call m img).
Proof.
  destruct m; simpl; intros Hfit;
    [ unfold apply_black_box | unfold apply_fake_text | unfold apply_blur_patch
    | unfold apply_whiteout | unfold overlay_random_shape
    | unfold apply_fake_signature ]; total_steps.
  - match goal with |- context [match ?s with ellipse => _ | rectangle => _ end] =>
      destruct s end; by apply total_ret.
  - apply total_for_in; [|done]. intros _ s Hs.
    eapply total_bind.
    + apply total_mapM. intros i. total_steps.
    + intros curve _. by apply total_ret.
Qed.

(** On an image that makes one of its ranges empty the operator raises
    [ValueError]. *)
Lemma call_fails m img : ¬ fits m img → fails (call m img).
Proof.
  destruct m; simpl; intros Hfit.
  - unfold apply_black_box.
    destruct (decide (50 ≤ width img `div` 2)); [skip_draw|]; empty_range.
  - unfold apply_fake_text.
    eapply fails_later; [apply total_font_probe | intros ? _].
    destruct (decide (100 ≤ width img - 150)); [skip_draw|]; empty_range.
  - unfold apply_blur_patch.
    destruct (decide (50 ≤ width img - 200)); [skip_draw|]; empty_range.
  - unfold apply_whiteout.
    destruct (decide (100 ≤ width img - 200)); [skip_draw|]; empty_range.
  - unfold overlay_random_shape.
    destruct (decide (50 ≤ width img - 100)); [skip_draw|]; empty_range.
  - unfold apply_fake_signature. empty_range.
Qed.

Lemma call_outcome m img w :
  frame w (call m img w).2 ∧
  if decide (fits m img)
  then ∃ img', (call m img w).1 = Ok img' ∧ same_size img' img
  else (call m img w).1 = Raise ValueError.
Proof.
  split; [apply call_rng_op|]. case_decide.
  - by apply call_total.
  - by apply call_fails.
Qed.

End Operators.

(** ** Listing and sampling *)

Lemma listdir_real w entries :
  real_dir w = Listing entries →
  listdir REAL_DIR w = (Ok (map_to_list entries).*1, w).
Proof. unfold listdir. simpl. by intros ->. Qed.

Lemma listed_names (entries : gmap string file) :
  NoDup (map_to_list entries).*1 ∧
  length (map_to_list entries).*1 = size entries ∧
  ∀ name, name ∈ (map_to_list entries).*1 ↔ is_Some (entries !! name).
Proof.
  split; [apply NoDup_fst_map_to_list|]. split.
  - by rewrite length_fmap, length_map_to_list.
  - intros name. rewrite list_elem_of_fmap. split.
    + intros ([k f] & -> & Hin). apply elem_of_map_to_list in Hin. by exists f.
    + intros [f Hf]. exists (name, f). split; [done|]. by apply elem_of_map_to_list.
Qed.

(** Taking [pool[j]] and moving the last candidate into slot [j] leaves
    the other candidates, each once. *)
Lemma swap_remove {A} (pool : list A) (j : nat) (x z : A) :
  pool !! j = Some x → last pool = Some z →
  x :: take (length pool - 1) (<[j := z]> pool) ≡ₚ pool.
Proof.
  intros Hx Hz. apply last_Some in Hz as [init ->].
  rewrite length_app. cbn [length].
  replace (length init + 1 - 1)%nat with (length init) by lia.
  destruct (decide (j < length init)%nat) as [Hj|Hj].
  - rewrite insert_app_l by done.
    rewrite take_app_length' by (by rewrite length_insert).
    rewrite lookup_app_l in Hx by done.
    rewrite <- (take_drop_middle init j x Hx) at 2.
    rewrite insert_take_drop by done.
    rewrite <- !app_assoc. cbn [app].
    etransitivity; [|apply Permutation_middle].
    constructor. apply Permutation_app_head, Permutation_cons_append.
  - assert (j = length init) as ->.
    { apply lookup_lt_Some in Hx. rewrite length_app in Hx. cbn in Hx. lia. }
    rewrite list_lookup_middle in Hx by done. simplify_eq.
    rewrite insert_app_r_alt by lia.
    rewrite Nat.sub_diag. cbn [insert list_insert].
    rewrite take_app_length.
    apply Permutation_cons_append.
Qed.

Lemma sample_loop_spec {A} (k : nat) (pool : list A) w :
  (k ≤ length pool)%nat →
  ∃ sel, (sample_loop k pool w).1 = Ok sel ∧ frame w (sample_loop k pool w).2 ∧
         length sel = k ∧ sel ⊆+ pool.
Proof.
  revert pool w. induction k as [|k IH]; intros pool w Hk.
  - exists []. simpl. split_and!; [done | apply frame_refl | done |].
    apply submseteq_nil_l.
  - assert (0 < Z.of_nat (length pool)) as Hn by lia.
    pose proof (randbelow_range _ w Hn) as Hr.
    set (j := Z.to_nat (entropy w (cursor w) `mod` Z.of_nat (length pool))) in *.
    destruct (lookup_lt_is_Some_2 pool j) as [x Hx]; [lia|].
    destruct (last pool) as [z|] eqn:Hz.
    2:{ apply last_None in Hz. subst pool. simpl in Hk. lia. }
    pose proof (swap_remove pool j x z Hx Hz) as Hperm.
    set (pool' := take (length pool - 1) (<[j := z]> pool)) in *.
    destruct (IH pool' (set_cursor (S (cursor w)) w)) as (rest & E1 & Hf & Hlen & Hsub).
    { apply Permutation_length in Hperm. simpl in Hperm. lia. }
    exists (x :: rest).
    cbn [sample_loop]. unfold mbind, M_bind, bind, randbelow.
    fold j. rewrite Hx, Hz. fold pool'.
    destruct (sample_loop k pool' (set_cursor (S (cursor w)) w)) as [r w2].
    simpl in E1, Hf. subst r. simpl. split_and!; [done | | by rewrite Hlen |].
    + eapply frame_trans; [apply frame_set_cursor | done].
    + rewrite <- Hperm. by apply submseteq_skip.
Qed.

Lemma sample_spec {A} (population : list A) (k : Z) w :
  if decide (0 ≤ k ≤ Z.of_nat (length population))
  then ∃ sel, (sample population k w).1 = Ok sel ∧ frame w (sample population k w).2 ∧
              length sel = Z.to_nat k ∧ sel ⊆+ population
  else sample population k w = (Raise ValueError, w).
Proof.
  unfold sample. case_decide; [|done]. apply sample_loop_spec. lia.
Qed.

(** What the driver samples from a listed source directory. *)
Lemma selection_spec (entries : gmap string file) (n : Z) w :
  0 ≤ n →
  ∃ sel, (sample (map_to_list entries).*1 (n `min` Z.of_nat (length (map_to_list entries).*1)) w).1
           = Ok sel ∧
         frame w (sample (map_to_list entries).*1
                    (n `min` Z.of_nat (length (map_to_list entries).*1)) w).2 ∧
         length sel = Z.to_nat (n `min` Z.of_nat (size entries)) ∧
         NoDup sel ∧ ∀ name, name ∈ sel → is_Some (entries !! name).
Proof.
  intros Hn. destruct (listed_names entries) as (Hnd & Hlen & Hin).
  pose proof (sample_spec (map_to_list entries).*1
                (n `min` Z.of_nat (length (map_to_list entries).*1)) w) as Hs.
  case_decide; [|lia]. destruct Hs as (sel & E & Hf & Hl & Hsub).
  exists sel. split_and!; [done | done | by rewrite Hl, Hlen | |].
  - apply submseteq_Permutation in Hsub as [rest Hrest].
    rewrite Hrest in Hnd. by apply NoDup_app in Hnd as [? _].
  - intros name Hname. apply Hin. by eapply elem_of_submseteq.
Qed.

(** ** One image *)

Lemma quiet_refl w : quiet w w.
Proof. by repeat split. Qed.

Lemma quiet_trans w1 w2 w3 : quiet w1 w2 → quiet w2 w3 → quiet w1 w3.
Proof. unfold quiet. intros (?&?&?&?) (?&?&?&?). repeat split; congruence. Qed.

Lemma frame_quiet w w' : frame w w' → quiet w w'.
Proof. intros (?&?&?&?&?). by repeat split. Qed.

Lemma source_image_quiet w w' name img :
  quiet w w' → source_image w name img → source_image w' name img.
Proof. intros (Hr & _) (es & Hes & Hl). exists es. by rewrite Hr. Qed.

Lemma source_image_inj w name img1 img2 :
  source_image w name img1 → source_image w name img2 → img1 = img2.
Proof. intros (es1 & E1 & L1) (es2 & E2 & L2). congruence. Qed.

Lemma roomy_fits img m : 300 ≤ width img → 200 ≤ height img → fits m img.
Proof.
  intros Hw Hh. destruct m; simpl; try lia.
  split; apply Z.div_le_lower_bound; lia.
Qed.

(** 300 by 200 is the least size at which no operator can hit an empty
    range. *)
Lemma fits_all_iff img :
  (∀ m, fits m img) ↔ 300 ≤ width img ∧ 200 ≤ height img.
Proof.
  split.
  - intros Hall. pose proof (Hall fn_apply_whiteout) as Hw. simpl in Hw. lia.
  - intros [Hw Hh] m. by apply roomy_fits.
Qed.

Lemma halves_below (v : Z) : v < 100 → v `div` 2 < 50.
Proof. intros. apply Z.div_lt_upper_bound; lia. Qed.

Lemma small_unfit img m :
  width img < 100 ∨ (height img < 100 ∧ width img < 300) → ¬ fits m img.
Proof.
  intros Hsmall. destruct m; simpl; try lia.
  intros [Hw Hh]. destruct Hsmall as [Hs|[Hs _]]; apply halves_below in Hs; lia.
Qed.

Section Driver.
Context `{Pillow}.

(** The selector draws once, reduces the draw modulo six and indexes the
    operator list with it; the operator runs on the decoded source and its
    result is stored under the output name. *)
Lemma tamper_image_run w src out img :
  source_image w src img →
  ∃ m, tamper_methods !! Z.to_nat (entropy w (cursor w) `mod` 6) = Some m ∧
       tamper_image (os_path_join REAL_DIR src) (os_path_join TAMPERED_DIR out) w
       = match call m img (set_cursor (S (cursor w)) w) with
         | (Ok img', w') => (Ok tt, set_tampered_dir (<[out := img']> (tampered_dir w')) w')
         | (Raise e, w') => (Raise e, w')
         end.
Proof.
  intros (es & Hes & Hl).
  destruct (choice_unfold tamper_methods w) as (m & Hm & Hc); [done|].
  exists m. split; [done|].
  unfold tamper_image.
  assert (Image_open (os_path_join REAL_DIR src) w = (Ok img, w)) as Ho.
  { unfold Image_open. simpl. by rewrite Hes, Hl. }
  rewrite (bind_Ok _ _ _ _ _ Ho), (bind_Ok _ _ _ _ _ Hc).
  destruct (call m img (set_cursor (S (cursor w)) w)) as [[img'|e] w'] eqn:E.
  - by rewrite (bind_Ok _ _ _ _ _ E).
  - by rewrite (bind_Raise _ _ _ _ _ E).
Qed.

Lemma tamper_image_no_source w src out :
  (∀ img, ¬ source_image w src img) →
  ∃ e, tamper_image (os_path_join REAL_DIR src) (os_path_join TAMPERED_DIR out) w
       = (Raise e, w).
Proof.
  intros Hno. unfold tamper_image.
  assert (∃ e, Image_open (os_path_join REAL_DIR src) w = (Raise e, w)) as [e He].
  { unfold Image_open, source_image in *. simpl.
    destruct (real_dir w) as [| |es]; [by eexists..|].
    destruct (es !! src) as [[img| |]|] eqn:E; try by eexists.
    destruct (Hno img). by exists es. }
  exists e. by rewrite (bind_Raise _ _ _ _ _ He).
Qed.

Lemma tamper_image_outcome w src out :
  let r := tamper_image (os_path_join REAL_DIR src) (os_path_join TAMPERED_DIR out) w in
  quiet w r.2 ∧
  match r.1 with
  | Ok _ =>
      ∃ img m wa wb img',
        source_image w src img ∧ m ∈ tamper_methods ∧ fits m img ∧
        call m img wa = (Ok img', wb) ∧ same_size img' img ∧
        tampered_dir r.2 = <[out := img']> (tampered_dir w)
  | Raise e =>
      tampered_dir r.2 = tampered_dir w ∧
      ∀ img, source_image w src img →
             e = ValueError ∧ ∃ m, m ∈ tamper_methods ∧ ¬ fits m img
  end.
Proof.
  intros r. subst r.
  destruct (real_dir w) as [| |es] eqn:Hes.
  1,2: destruct (tamper_image_no_source w src out) as [e ->];
       [ intros img (es' & ? & _); congruence
       | simpl; split_and!; [apply quiet_refl | done |];
         intros img (es' & ? & _); congruence ].
  destruct (es !! src) as [[img| |]|] eqn:El.
  2,3,4: destruct (tamper_image_no_source w src out) as [e ->];
       [ intros img (es' & ? & ?); congruence
       | simpl; split_and!; [apply quiet_refl | done |];
         intros img (es' & ? & ?); congruence ].
  assert (source_image w src img) as Hsrc by (by exists es).
  destruct (tamper_image_run w src out img Hsrc) as (m & Hm & ->).
  apply list_elem_of_lookup_2 in Hm.
  destruct (call_outcome m img (set_cursor (S (cursor w)) w)) as [Hf Hout].
  destruct (call m img (set_cursor (S (cursor w)) w)) as [[img'|e] w'] eqn:E;
    simpl in *.
  - split.
    { destruct Hf as (?&?&?&?&?). by repeat split. }
    case_decide as Hfit; [|done]. destruct Hout as (? & [= <-] & Hsz).
    exists img, m, (set_cursor (S (cursor w)) w), w', img'.
    split_and!; try done. destruct Hf as (?&Ht&?). by rewrite Ht.
  - split.
    { destruct Hf as (?&?&?&?&?). by repeat split. }
    case_decide as Hfit; [destruct Hout as (? & ? & _); discriminate|].
    split; [by destruct Hf as (?&?&?)|].
    intros img2 Hsrc2. rewrite <- (source_image_inj _ _ _ _ Hsrc Hsrc2).
    split; [congruence|]. by exists m.
Qed.

Lemma Image_open_world p w : (Image_open p w).2 = w.
Proof.
  unfold Image_open. destruct (read_dir p.1 w) as [| |es]; [done..|].
  by destruct (es !! p.2) as [[| |]|].
Qed.

Lemma tamper_image_open_error ip sp w e :
  (Image_open ip w).1 = Raise e → tamper_image ip sp w = (Raise e, w).
Proof.
  intros He. unfold tamper_image.
  assert (Image_open ip w = (Raise e, w)) as E.
  { pose proof (Image_open_world ip w). destruct (Image_open ip w). simpl in *. congruence. }
  by rewrite (bind_Raise _ _ _ _ _ E).
Qed.

End Driver.

(** ** Output names *)

Lemma string_length_app (s t : string) :
  String.length (s +:+ t) = (String.length s + String.length t)%nat.
Proof. induction s as [|a s IH]; simpl; [done | by rewrite IH]. Qed.

Lemma string_app_inj_r (t s1 s2 : string) : s1 +:+ t = s2 +:+ t → s1 = s2.
Proof.
  revert s2. induction s1 as [|a s1 IH]; intros [|b s2] E; simpl in E.
  - done.
  - apply (f_equal String.length) in E. simpl in E.
    rewrite !string_length_app in E. simpl in E. lia.
  - apply (f_equal String.length) in E. simpl in E.
    rewrite !string_length_app in E. simpl in E. lia.
  - injection E as -> E. f_equal. by apply IH.
Qed.

Lemma tampered_name_inj i j : tampered_name i = tampered_name j → i = j.
Proof.
  unfold tampered_name. intros E.
  apply (inj (String.app "tampered_")) in E.
  apply string_app_inj_r in E. by apply (inj pretty) in E.
Qed.

Lemma elem_of_tampered_names name k :
  name ∈ tampered_names k ↔ ∃ j, (j < k)%nat ∧ name = tampered_name j.
Proof.
  unfold tampered_names. rewrite elem_of_list_to_set, list_elem_of_fmap.
  split.
  - intros (j & -> & Hj). apply elem_of_seq in Hj. exists j. split; [lia | done].
  - intros (j & Hj & ->). exists j. split; [done|]. apply elem_of_seq. lia.
Qed.

Lemma size_tampered_names k : size (tampered_names k) = k.
Proof.
  unfold tampered_names. rewrite size_list_to_set.
  - by rewrite length_fmap, length_seq.
  - apply NoDup_fmap_2; [|apply NoDup_seq].
    intros i j. apply tampered_name_inj.
Qed.

(** ** The batch *)

Section Batch.
Context `{Pillow}.

(** The body of the driver's loop. *)
Let body : nat * string → unit → M unit :=
  λ '(i, filename) _,
    tamper_image (os_path_join REAL_DIR filename)
                 (os_path_join TAMPERED_DIR (tampered_name i)).

(** The loop over the sampled names, started at index [i]: it stops at the
    first image that fails, having stored one output per image before it
    and touched no other entry of the output directory. *)
Lemma loop_outcome sel i w :
  let r := for_in (enumerate_from i sel) body tt w in
  quiet w r.2 ∧
  ∃ done : nat,
    match r.1 with
    | Ok _ => done = length sel
    | Raise e =>
        ∃ src, sel !! done = Some src ∧
               ∀ img, source_image w src img →
                      e = ValueError ∧ ∃ m, m ∈ tamper_methods ∧ ¬ fits m img
    end ∧
    (∀ j, (j < done)%nat →
          ∃ src img m wa wb img',
            sel !! j = Some src ∧ source_image w src img ∧
            m ∈ tamper_methods ∧ fits m img ∧
            call m img wa = (Ok img', wb) ∧ same_size img' img ∧
            tampered_dir r.2 !! tampered_name (i + j) = Some img') ∧
    (∀ name, (∀ j, (j < done)%nat → name ≠ tampered_name (i + j)) →
             tampered_dir r.2 !! name = tampered_dir w !! name).
Proof.
  revert i w. induction sel as [|src sel IH]; intros i w; cbn zeta.
  - simpl. split; [apply quiet_refl|]. exists 0%nat.
    split_and!; [done | intros; lia | done].
  - cbn [enumerate_from for_in].
    pose proof (tamper_image_outcome w src (tampered_name i)) as Hone.
    cbn zeta in Hone. destruct Hone as [Hq Hone].
    change (body (i, src) tt) with
      (tamper_image (os_path_join REAL_DIR src)
                    (os_path_join TAMPERED_DIR (tampered_name i))).
    destruct (tamper_image (os_path_join REAL_DIR src)
                (os_path_join TAMPERED_DIR (tampered_name i)) w)
      as [[[]|e] w1] eqn:E; simpl in Hq, Hone.
    + rewrite (bind_Ok _ _ _ _ _ E).
      destruct Hone as (img & m & wa & wb & img' & Hsrc & Hm & Hfit & Hcall & Hsz & Hdir).
      specialize (IH (S i) w1). cbn zeta in IH.
      destruct IH as (Hq' & done & Hres & Hdone & Hrest).
      split; [by eapply quiet_trans|].
      exists (S done). split_and!.
      * destruct (for_in (enumerate_from (S i) sel) body tt w1).1 as [|e]; [by subst|].
        destruct Hres as (src' & Hl & Hwhy). exists src'. split; [done|].
        intros img2 Hsrc2. apply Hwhy. by eapply source_image_quiet.
      * intros [|j] Hj.
        -- exists src, img, m, wa, wb, img'. split_and!; try done.
           rewrite Nat.add_0_r, Hrest, Hdir; [by rewrite lookup_insert_eq|].
           intros j _ Heq. apply tampered_name_inj in Heq. lia.
        -- destruct (Hdone j) as (src' & img2 & m2 & wa2 & wb2 & img2' & ?&Hs2&?&?&?&?&Hl);
             [lia|].
           exists src', img2, m2, wa2, wb2, img2'. split_and!; try done.
           ++ destruct Hq as (Hr & _). destruct Hs2 as (es & ? & ?).
              exists es. split; [congruence | done].
           ++ by replace (i + S j)%nat with (S i + j)%nat by lia.
      * intros name Hname. rewrite Hrest.
        -- rewrite Hdir, lookup_insert_ne; [done|].
           intros Heq. apply (Hname 0%nat); [lia|]. by rewrite Nat.add_0_r.
        -- intros j Hj. replace (S i + j)%nat with (i + S j)%nat by lia.
           apply Hname. lia.
    + rewrite (bind_Raise _ _ _ _ _ E). simpl. split; [done|].
      destruct Hone as [Hdir Hwhy].
      exists 0%nat. split_and!.
      * by exists src.
      * intros; lia.
      * intros. by rewrite Hdir.
Qed.

(** The driver on a listed source directory: it samples, loops over the
    sample and, if the loop returns, prints the summary. *)
Lemma driver_run (n : Z) w entries :
  real_dir w = Listing entries → 0 ≤ n →
  ∃ sel w1,
    sample (map_to_list entries).*1
           (n `min` Z.of_nat (length (map_to_list entries).*1)) w = (Ok sel, w1) ∧
    frame w w1 ∧ NoDup sel ∧
    length sel = Z.to_nat (n `min` Z.of_nat (size entries)) ∧
    (∀ name, name ∈ sel → is_Some (entries !! name)) ∧
    generate_tampered_images n w
    = match for_in (enumerate_from 0 sel) body tt w1 with
      | (Ok _, w2) => print (summary (length sel)) w2
      | (Raise e, w2) => (Raise e, w2)
      end.
Proof.
  intros Hes Hn.
  destruct (selection_spec entries n w Hn) as (sel & E & Hf & Hlen & Hnd & Hin).
  destruct (sample _ _ w) as [r w1] eqn:Es. simpl in E, Hf. subst r.
  exists sel, w1. split_and!; try done.
  unfold generate_tampered_images.
  rewrite (bind_Ok _ _ _ _ _ (listdir_real w entries Hes)).
  rewrite (bind_Ok _ _ _ _ _ Es).
  unfold enumerate. fold body.
  destruct (for_in (enumerate_from 0 sel) body tt w1) as [[[]|e] w2] eqn:El.
  - by rewrite (bind_Ok _ _ _ _ _ El).
  - by rewrite (bind_Raise _ _ _ _ _ El).
Qed.

End Batch.

(** ** The output directory is never read *)

Lemma blind_frame {A} (m : M A) :
  (∀ w t, m (set_tampered_dir t w) = ((m w).1, set_tampered_dir t (m w).2)) →
  blind m.
Proof. intros Hm w. exists []. intros t. by rewrite Hm. Qed.

Lemma blind_ret {A} (a : A) : blind (mret a).
Proof. by apply blind_frame. Qed.

Lemma blind_raise {A} e : blind (@raise A e).
Proof. by apply blind_frame. Qed.

Lemma blind_bind {A B} (m : M A) (k : A → M B) :
  blind m → (∀ a, blind (k a)) → blind (m ≫= k).
Proof.
  intros Hm Hk w. destruct (Hm w) as [ws1 H1].
  destruct (m w) as [[a|e] w1] eqn:E; simpl in H1.
  - destruct (Hk a w1) as [ws2 H2]. exists (ws1 ++ ws2). intros t.
    rewrite (bind_Ok _ _ _ _ _ (H1 t)), (bind_Ok _ _ _ _ _ E), H2.
    unfold apply_writes. by rewrite foldl_app.
  - exists ws1. intros t.
    by rewrite (bind_Raise _ _ _ _ _ (H1 t)), (bind_Raise _ _ _ _ _ E).
Qed.

Lemma blind_randbelow n : blind (randbelow n).
Proof. by apply blind_frame. Qed.

Lemma blind_randint a b : blind (randint a b).
Proof.
  unfold randint. case_decide; [apply blind_raise|].
  apply blind_bind; [apply blind_randbelow | intros; apply blind_ret].
Qed.

Lemma blind_choice {A} (seq : list A) : blind (choice seq).
Proof.
  destruct seq as [|x seq]; [apply blind_raise|]. unfold choice.
  apply blind_bind; [apply blind_randbelow | intros i].
  destruct (_ !! _); [apply blind_ret | apply blind_raise].
Qed.

Lemma blind_sample {A} (population : list A) k : blind (sample population k).
Proof.
  unfold sample. case_decide as Hk; [clear Hk|apply blind_raise].
  generalize (Z.to_nat k) as c. intros c. revert population.
  induction c as [|c IH]; intros pool; simpl; [apply blind_ret|].
  apply blind_bind; [apply blind_randbelow | intros j].
  destruct (pool !! _), (last pool); try apply blind_raise.
  apply blind_bind; [apply IH | intros; apply blind_ret].
Qed.

Lemma blind_for_in {A S} (l : list A) (body : A → S → M S) s :
  (∀ x s, blind (body x s)) → blind (for_in l body s).
Proof.
  intros Hbody. revert s. induction l as [|x l IH]; intros s; simpl.
  - apply blind_ret.
  - apply blind_bind; [apply Hbody | apply IH].
Qed.

Lemma blind_mapM {A B} (f : A → M B) (l : list A) :
  (∀ x, blind (f x)) → blind (mapM f l).
Proof.
  intros Hf. induction l as [|x l IH]; simpl; [apply blind_ret|].
  apply blind_bind; [apply Hf | intros y].
  apply blind_bind; [apply IH | intros; apply blind_ret].
Qed.

Lemma blind_font_probe :
  blind (try_except (ImageFont_truetype "arial.ttf" 22) ImageFont_load_default).
Proof. apply blind_frame. intros w t. by rewrite !font_probe. Qed.

Lemma blind_listdir_real : blind (listdir REAL_DIR).
Proof.
  apply blind_frame. intros w t. unfold listdir. simpl.
  by destruct (real_dir w).
Qed.

Lemma blind_open_real name : blind (Image_open (os_path_join REAL_DIR name)).
Proof.
  apply blind_frame. intros w t. unfold Image_open. simpl.
  destruct (real_dir w) as [| |es]; [done..|].
  by destruct (es !! name) as [[| |]|].
Qed.

Lemma blind_save_tampered img name :
  blind (Image_save img (os_path_join TAMPERED_DIR name)).
Proof. intros w. by exists [(name, img)]. Qed.

Lemma blind_print msg : blind (print msg).
Proof. by apply blind_frame. Qed.

Section Blind.
Context `{Pillow}.

Ltac blind_steps :=
  repeat first
    [ apply blind_ret
    | apply blind_randint
    | apply blind_choice
    | apply blind_font_probe
    | apply blind_bind; [| intros ?] ].

Lemma blind_call m img : blind (call m img).
Proof.
  destruct m; simpl;
    [ unfold apply_black_box | unfold apply_fake_text | unfold apply_blur_patch
    | unfold apply_whiteout | unfold overlay_random_shape
    | unfold apply_fake_signature ]; blind_steps.
  match goal with |- context [match ?s with ellipse => _ | rectangle => _ end] =>
    destruct s end; apply blind_ret.
Qed.

Lemma blind_tamper_image src out :
  blind (tamper_image (os_path_join REAL_DIR src) (os_path_join TAMPERED_DIR out)).
Proof.
  unfold tamper_image.
  apply blind_bind; [apply blind_open_real | intros img].
  apply blind_bind; [apply blind_choice | intros m].
  apply blind_bind; [apply blind_call | intros img'].
  apply blind_save_tampered.
Qed.

Lemma blind_driver n : blind (generate_tampered_images n).
Proof.
  unfold generate_tampered_images.
  apply blind_bind; [apply blind_listdir_real | intros real_imgs].
  apply blind_bind; [apply blind_sample | intros selected].
  apply blind_bind; [|intros; apply blind_print].
  apply blind_for_in. intros [i filename] _. apply blind_tamper_image.
Qed.

End Blind.

(** ** The driver: what one invocation does *)

Section Claims.
Context `{Pillow}.

Lemma print_run msg w :
  print msg w = (Ok tt, World (real_dir w) (tampered_dir w) (installed_fonts w)
                              (entropy w) (cursor w) (stdout w ++ [msg])).
Proof. done. Qed.

Lemma driver_roomy (n : Z) w entries :
  real_dir w = Listing entries →
  (∀ name f, entries !! name = Some f → roomy f) →
  0 ≤ n →
  let k := Z.to_nat (n `min` Z.of_nat (size entries)) in
  ∃ sel w',
    generate_tampered_images n w = (Ok tt, w') ∧
    length sel = k ∧ NoDup sel ∧
    real_dir w' = real_dir w ∧ stdout w' = stdout w ++ [summary k] ∧
    (∀ j, (j < k)%nat →
          ∃ src img img',
            sel !! j = Some src ∧ entries !! src = Some (ImageFile img) ∧
            tampered_dir w' !! tampered_name j = Some img' ∧ same_size img' img) ∧
    (∀ name, name ∉ tampered_names k →
             tampered_dir w' !! name = tampered_dir w !! name) ∧
    dom (tampered_dir w') = dom (tampered_dir w) ∪ tampered_names k.
Proof.
  intros Hes Hroomy Hn k.
  destruct (driver_run n w entries Hes Hn)
    as (sel & w1 & _ & Hf & Hnd & Hlen & Hin & ->).
  destruct Hf as (Hr1 & Ht1 & _ & _ & Hs1).
  pose proof (loop_outcome sel 0 w1) as Hloop. cbn zeta in Hloop.
  destruct Hloop as ((Hr2 & _ & _ & Hs2) & done & Hres & Hdone & Hrest).
  destruct (for_in _ _ tt w1) as [[[]|e] w2]; simpl in *.
  2:{ exfalso. destruct Hres as (src & Hl & Hwhy).
      destruct (Hin src) as [f Hf]; [by eapply list_elem_of_lookup_2|].
      pose proof (Hroomy src f Hf) as Hroom. destruct f as [img| |]; try done.
      destruct (Hwhy img) as (_ & m & _ & Hunfit).
      { exists entries. split; [congruence | done]. }
      destruct Hroom. by apply Hunfit, roomy_fits. }
  subst done. exists sel, (print (summary (length sel)) w2).2.
  rewrite print_run. simpl. fold k in Hlen. rewrite Hlen in *.
  assert (∀ name, name ∉ tampered_names k →
                  tampered_dir w2 !! name = tampered_dir w !! name) as Hkeep.
  { intros name Hname. rewrite Hrest, Ht1; [done|].
    intros j Hj ->. apply Hname, elem_of_tampered_names. by exists j. }
  split_and!; try done; try congruence.
  - intros j Hj.
    destruct (Hdone j Hj) as (src & img & m & wa & wb & img' & Hl & Hsrc & _ & _ & _ & Hsz & Hlk).
    exists src, img, img'. split_and!; try done.
    destruct Hsrc as (es & Hes' & Hlk'). congruence.
  - apply set_eq. intros name.
    rewrite elem_of_union, !elem_of_dom.
    destruct (decide (name ∈ tampered_names k)) as [Hname|Hname].
    + split; [by right|]. intros _.
      apply elem_of_tampered_names in Hname as (j & Hj & ->).
      destruct (Hdone j Hj) as (?&?&?&?&?& img' &?&?&?&?&?&?& Hlk). by exists img'.
    + rewrite (Hkeep name Hname). tauto.
Qed.

(** C1, as amended: for every target count [n >= 0] and every source
    directory whose entries are all decodable images at least 300 pixels
    wide and 200 pixels high, one invocation of the driver returns, having
    stored exactly the [min(n, M)] entries [tampered_0.jpg] ..
    [tampered_{min(n,M)-1}.jpg]; each of them decodes, to an image of the
    pixel dimensions of the source image it was produced from, and the
    sources are pairwise distinct. *)
Theorem C1_driver_writes_min_n_m (n : Z) w entries :
  real_dir w = Listing entries →
  (∀ name f, entries !! name = Some f → roomy f) →
  0 ≤ n →
  let k := Z.to_nat (n `min` Z.of_nat (size entries)) in
  let r := generate_tampered_images n w in
  r.1 = Ok tt ∧
  dom (tampered_dir r.2) = dom (tampered_dir w) ∪ tampered_names k ∧
  size (tampered_names k) = k ∧
  (∀ name, name ∉ tampered_names k →
           tampered_dir r.2 !! name = tampered_dir w !! name) ∧
  ∃ sel, length sel = k ∧ NoDup sel ∧
    ∀ j, (j < k)%nat →
      ∃ src img img',
        sel !! j = Some src ∧ entries !! src = Some (ImageFile img) ∧
        Image_open (os_path_join TAMPERED_DIR (tampered_name j)) r.2 = (Ok img', r.2) ∧
        width img' = width img ∧ height img' = height img.
Proof.
  intros Hes Hroomy Hn k r. subst r.
  destruct (driver_roomy n w entries Hes Hroomy Hn)
    as (sel & w' & -> & Hlen & Hnd & _ & _ & Hfiles & Hkeep & Hdom).
  simpl. fold k in Hlen, Hfiles, Hkeep, Hdom.
  split_and!; [done | done | apply size_tampered_names | done |].
  exists sel. split_and!; [done..|]. intros j Hj.
  destruct (Hfiles j Hj) as (src & img & img' & Hl & Hsrc & Hlk & Hw & Hh).
  exists src, img, img'. split_and!; try done.
  unfold Image_open. simpl. by rewrite lookup_fmap, Hlk.
Qed.

Lemma driver_no_listing (n : Z) w :
  real_dir w = Missing ∨ real_dir w = Unreadable →
  ∃ e, MissingSourceDirectory e ∧ generate_tampered_images n w = (Raise e, w).
Proof.
  intros [Hd|Hd].
  - exists FileNotFoundError. split; [by left|].
    assert (listdir REAL_DIR w = (Raise FileNotFoundError, w)) as E.
    { unfold listdir. simpl. by rewrite Hd. }
    unfold generate_tampered_images. by rewrite (bind_Raise _ _ _ _ _ E).
  - exists PermissionError. split; [by right|].
    assert (listdir REAL_DIR w = (Raise PermissionError, w)) as E.
    { unfold listdir. simpl. by rewrite Hd. }
    unfold generate_tampered_images. by rewrite (bind_Raise _ _ _ _ _ E).
Qed.

(** C5: when the source directory does not exist or cannot be read, the
    driver raises the error of the listing call (the
    [MissingSourceDirectory] condition) and the world is exactly as it was:
    nothing is written to the output directory and nothing is printed. *)
Theorem C5_missing_source_directory (n : Z) w :
  real_dir w = Missing ∨ real_dir w = Unreadable →
  ∃ e, MissingSourceDirectory e ∧
       generate_tampered_images n w = (Raise e, w) ∧
       tampered_dir (generate_tampered_images n w).2 = tampered_dir w ∧
       stdout (generate_tampered_images n w).2 = stdout w.
Proof.
  intros Hd. destruct (driver_no_listing n w Hd) as (e & He & E).
  exists e. by rewrite E.
Qed.

Lemma driver_negative_count (n : Z) w entries :
  real_dir w = Listing entries → n < 0 →
  generate_tampered_images n w = (Raise ValueError, w).
Proof.
  intros Hes Hn. unfold generate_tampered_images.
  rewrite (bind_Ok _ _ _ _ _ (listdir_real w entries Hes)).
  pose proof (sample_spec (map_to_list entries).*1
                (n `min` Z.of_nat (length (map_to_list entries).*1)) w) as Hs.
  case_decide; [lia|]. by rewrite (bind_Raise _ _ _ _ _ Hs).
Qed.

(** C6, as amended: on a source directory that holds no image the driver
    leaves the output directory as it was, whatever the count; on an empty
    source directory and a count [n >= 0] it returns and reports that zero
    images were generated; on a directory that has entries, none of them an
    image, and a count [n >= 1] it raises the error of [Image.open] on the
    first sampled entry ([UnidentifiedImageError] for a file that is not an
    image, [IsADirectoryError] for a directory), which is not the
    [MissingSourceDirectory] condition, and it prints nothing. *)
Theorem C6_empty_source_directory (n : Z) w entries :
  real_dir w = Listing entries →
  (∀ name f, entries !! name = Some f → ¬ decodable f) →
  tampered_dir (generate_tampered_images n w).2 = tampered_dir w ∧
  (entries = ∅ → 0 ≤ n →
   generate_tampered_images n w
   = print "✅ Generated 0 tampered images in data/tampered/" w) ∧
  (entries ≠ ∅ → 1 ≤ n →
   ∃ src f e w',
     entries !! src = Some f ∧
     e = match f with
         | Directory => IsADirectoryError
         | _ => UnidentifiedImageError
         end ∧
     ¬ MissingSourceDirectory e ∧
     generate_tampered_images n w = (Raise e, w') ∧
     stdout w' = stdout w).
Proof.
  intros Hes Hnone. split_and!.
  - destruct (decide (0 ≤ n)) as [Hn|Hn].
    2:{ by rewrite (driver_negative_count n w entries Hes) by lia. }
    destruct (driver_run n w entries Hes Hn)
      as (sel & w1 & _ & Hf & _ & _ & Hin & ->).
    destruct Hf as (Hr1 & Ht1 & _).
    pose proof (loop_outcome sel 0 w1) as Hloop. cbn zeta in Hloop.
    destruct Hloop as (_ & done & _ & Hdone & Hrest).
    assert (done = 0%nat) as ->.
    { destruct done as [|d]; [done|]. exfalso.
      destruct (Hdone 0%nat) as (src & img & _ & _ & _ & _ & _ & Hsrc & _); [lia|].
      destruct Hsrc as (es & Hes' & Hl).
      apply (Hnone src (ImageFile img)); [congruence | done]. }
    assert (tampered_dir (for_in (enumerate_from 0 sel)
              (λ '(i, filename) _,
                 tamper_image (os_path_join REAL_DIR filename)
                   (os_path_join TAMPERED_DIR (tampered_name i))) tt w1).2
            = tampered_dir w) as Hsame.
    { rewrite <- Ht1. apply map_eq. intros name. apply Hrest. intros; lia. }
    destruct (for_in _ _ tt w1) as [[[]|e] w2]; simpl in *; done.
  - intros -> Hn. unfold generate_tampered_images.
    rewrite (bind_Ok _ _ _ _ _ (listdir_real w ∅ Hes)).
    rewrite map_to_list_empty. simpl.
    replace (n `min` Z.of_nat 0) with 0 by lia. done.
  - intros Hne Hn.
    destruct (driver_run n w entries Hes) as (sel & w1 & _ & Hf & _ & Hlen & Hin & ->);
      [lia|].
    destruct Hf as (Hr1 & _ & _ & _ & Hs1).
    assert (size entries ≠ 0%nat) as Hsize by (by rewrite map_size_empty_iff).
    destruct sel as [|src rest]; [simpl in Hlen; lia|].
    destruct (Hin src) as [f Hf]; [by left|].
    exists src, f,
      (match f with Directory => IsADirectoryError | _ => UnidentifiedImageError end),
      w1.
    split_and!; [done | done | | | done].
    + unfold MissingSourceDirectory. by destruct f as [| |]; intros [?|?].
    + cbn [enumerate_from for_in].
      rewrite (bind_Raise _ _ _
        (match f with Directory => IsADirectoryError | _ => UnidentifiedImageError end)
        w1); [done|].
      apply tamper_image_open_error. unfold Image_open. simpl.
      rewrite Hr1, Hes, Hf. destruct f as [img| |]; [|done..].
      by destruct (Hnone src (ImageFile img) Hf).
Qed.

(** C7, as amended: on a source directory whose entries are all decodable
    images at least 300 pixels wide and 200 pixels high, and for a count
    [n >= 0], running the driver and running it again both return; after
    the first run the output directory holds what it held plus the names
    [tampered_0.jpg] .. [tampered_{min(n,M)-1}.jpg], the second run adds no
    name (it overwrites those), entries under other names are never
    deleted or modified, and the driver's result and writes do not depend
    on what the output directory holds. *)
Theorem C7_rerun_overwrites (n : Z) w entries :
  real_dir w = Listing entries →
  (∀ name f, entries !! name = Some f → roomy f) →
  0 ≤ n →
  let k := Z.to_nat (n `min` Z.of_nat (size entries)) in
  let r1 := generate_tampered_images n w in
  let r2 := generate_tampered_images n r1.2 in
  r1.1 = Ok tt ∧ r2.1 = Ok tt ∧
  dom (tampered_dir r1.2) = dom (tampered_dir w) ∪ tampered_names k ∧
  dom (tampered_dir r2.2) = dom (tampered_dir r1.2) ∧
  (tampered_dir w = ∅ →
   dom (tampered_dir r2.2) = tampered_names k ∧ size (tampered_dir r2.2) = k) ∧
  (∀ name, name ∉ tampered_names k →
           tampered_dir r2.2 !! name = tampered_dir w !! name) ∧
  blind (generate_tampered_images n).
Proof.
  intros Hes Hroomy Hn k r1 r2. subst r1 r2.
  destruct (driver_roomy n w entries Hes Hroomy Hn)
    as (sel1 & w1 & -> & _ & _ & Hr1 & _ & _ & Hkeep1 & Hdom1).
  simpl. rewrite Hes in Hr1.
  destruct (driver_roomy n w1 entries Hr1 Hroomy Hn)
    as (sel2 & w2 & -> & _ & _ & _ & _ & _ & Hkeep2 & Hdom2).
  simpl. fold k in Hkeep1, Hdom1, Hkeep2, Hdom2.
  assert (dom (tampered_dir w2) = dom (tampered_dir w1)) as Hsame.
  { rewrite Hdom2, Hdom1. apply set_eq. intros x. rewrite !elem_of_union. tauto. }
  split_and!; try done.
  - intros Hempty. rewrite Hsame.
    assert (dom (tampered_dir w1) = tampered_names k) as Hd.
    { by rewrite Hdom1, Hempty, dom_empty_L, (left_id_L ∅ (∪)). }
    split; [done|].
    by rewrite <- size_dom, Hsame, Hd, size_tampered_names.
  - intros name Hname. by rewrite Hkeep2, Hkeep1.
  - apply blind_driver.
Qed.

(** C2: in every invocation the images the driver works on are the sample
    [sel] drawn from the listing, in which no name occurs twice; the
    outputs stored by the invocation are [tampered_0.jpg] ..
    [tampered_{done-1}.jpg] for some [done <= len(sel)] (all of them when the
    driver returns), output [j] is the result of one call of one operator
    of the list on the decoded source [sel[j]], and no other entry of the
    output directory is touched. *)
Theorem C2_sampling_without_replacement (n : Z) w :
  let r := generate_tampered_images n w in
  ∃ (sel : list string) (done : nat),
    (∀ entries, real_dir w = Listing entries → 0 ≤ n →
       (sample (map_to_list entries).*1
               (n `min` Z.of_nat (length (map_to_list entries).*1)) w).1 = Ok sel ∧
       length sel = Z.to_nat (n `min` Z.of_nat (size entries))) ∧
    NoDup sel ∧
    (∀ j1 j2 src, sel !! j1 = Some src → sel !! j2 = Some src → j1 = j2) ∧
    (done ≤ length sel)%nat ∧
    (r.1 = Ok tt → done = length sel) ∧
    (∀ j, (j < done)%nat →
          ∃ src img m wa wb img',
            sel !! j = Some src ∧ source_image w src img ∧
            m ∈ tamper_methods ∧ call m img wa = (Ok img', wb) ∧
            tampered_dir r.2 !! tampered_name j = Some img') ∧
    (∀ name, (∀ j, (j < done)%nat → name ≠ tampered_name j) →
             tampered_dir r.2 !! name = tampered_dir w !! name).
Proof.
  intros r. subst r.
  assert (∀ e, generate_tampered_images n w = (Raise e, w) →
               (∀ entries, real_dir w = Listing entries → 0 ≤ n → False) →
               ∃ (sel : list string) (done : nat),
                 (∀ entries, real_dir w = Listing entries → 0 ≤ n →
                    (sample (map_to_list entries).*1
                       (n `min` Z.of_nat (length (map_to_list entries).*1)) w).1 = Ok sel ∧
                    length sel = Z.to_nat (n `min` Z.of_nat (size entries))) ∧
                 NoDup sel ∧
                 (∀ j1 j2 src, sel !! j1 = Some src → sel !! j2 = Some src → j1 = j2) ∧
                 (done ≤ length sel)%nat ∧
                 ((generate_tampered_images n w).1 = Ok tt → done = length sel) ∧
                 (∀ j, (j < done)%nat →
                       ∃ src img m wa wb img',
                         sel !! j = Some src ∧ source_image w src img ∧
                         m ∈ tamper_methods ∧ call m img wa = (Ok img', wb) ∧
                         tampered_dir (generate_tampered_images n w).2 !! tampered_name j
                         = Some img') ∧
                 (∀ name, (∀ j, (j < done)%nat → name ≠ tampered_name j) →
                          tampered_dir (generate_tampered_images n w).2 !! name
                          = tampered_dir w !! name)) as Hnothing.
  { intros e -> Hno. exists [], 0%nat. simpl.
    split_and!; try done.
    - intros es Hes Hn. destruct (Hno es Hes Hn).
    - constructor.
    - intros; lia. }
  destruct (real_dir w) as [| |entries] eqn:Hes.
  - destruct (driver_no_listing n w) as (e & _ & E); [by left|]. by eapply Hnothing.
  - destruct (driver_no_listing n w) as (e & _ & E); [by right|]. by eapply Hnothing.
  - destruct (decide (0 ≤ n)) as [Hn|Hn].
    2:{ eapply Hnothing; [by apply (driver_negative_count n w entries); [|lia]|].
        intros. lia. }
    clear Hnothing.
    destruct (driver_run n w entries Hes Hn)
      as (sel & w1 & Es & Hf & Hnd & Hlen & Hin & ->).
    pose proof (loop_outcome sel 0 w1) as Hloop. cbn zeta in Hloop.
    destruct Hloop as (Hq & done & Hres & Hdone & Hrest).
    exists sel, done.
    assert (tampered_dir w1 = tampered_dir w) as Ht1 by (by destruct Hf as (_&?&_)).
    assert (real_dir w1 = real_dir w) as Hr1 by (by destruct Hf as (?&_)).
    split_and!.
    + intros es [= <-] _. by rewrite Es.
    + done.
    + intros j1 j2 src H1 H2. by eapply NoDup_lookup.
    + destruct (for_in _ _ tt w1).1; [lia|].
      destruct Hres as (src & Hl & _). apply lookup_lt_Some in Hl. lia.
    + destruct (for_in _ _ tt w1) as [[[]|e] w2]; simpl in *; [done | discriminate].
    + intros j Hj.
      destruct (Hdone j Hj) as (src & img & m & wa & wb & img' & Hl & Hsrc & Hm & _ & Hc & _ & Hlk).
      exists src, img, m, wa, wb, img'. split_and!; try done.
      * destruct Hsrc as (es & ? & ?). exists es. split; [congruence | done].
      * destruct (for_in _ _ tt w1) as [[[]|e] w2]; simpl in *; done.
    + intros name Hname. rewrite <- Ht1, <- (Hrest name Hname).
      destruct (for_in _ _ tt w1) as [[[]|e] w2]; simpl in *; done.
Qed.

(** C3: the selector is [random.choice] over the fixed list of the six
    operators, each listed once: it draws one fresh value, reduces it
    modulo six and applies the operator at that index, whatever the image,
    its name, its position in the batch and the operators chosen before;
    on the six equally likely residues each operator is chosen on exactly
    one, a share of 1/6, and the list is the same for every image. *)
Theorem C3_uniform_operator_choice :
  length tamper_methods = 6%nat ∧ NoDup tamper_methods ∧
  (∀ m : method, m ∈ tamper_methods) ∧
  (∀ m : method, (choice_share tamper_methods m == 1 # 6)%Q) ∧
  (∀ (m : method), ∃ i : nat, (i < 6)%nat ∧
     ∀ j w, (j < 6)%nat → Z.of_nat j = entropy w (cursor w) `mod` 6 →
            (choice tamper_methods w = (Ok m, set_cursor (S (cursor w)) w) ↔ j = i)) ∧
  (∀ w src out img,
     source_image w src img →
     ∃ m, choice tamper_methods w = (Ok m, set_cursor (S (cursor w)) w) ∧
          tamper_image (os_path_join REAL_DIR src) (os_path_join TAMPERED_DIR out) w
          = match call m img (set_cursor (S (cursor w)) w) with
            | (Ok img', w') =>
                (Ok tt, set_tampered_dir (<[out := img']> (tampered_dir w')) w')
            | (Raise e, w') => (Raise e, w')
            end).
Proof.
  split_and!.
  - done.
  - by apply (bool_decide_unpack _).
  - intros []; by apply (bool_decide_unpack _).
  - by intros [].
  - intros m.
    exists (match m with
            | fn_apply_black_box => 0 | fn_apply_fake_text => 1
            | fn_apply_blur_patch => 2 | fn_apply_whiteout => 3
            | fn_overlay_random_shape => 4 | fn_apply_fake_signature => 5
            end)%nat.
    split; [destruct m; lia|]. intros j w Hj Hr.
    destruct (choice_unfold tamper_methods w) as (m' & Hm' & ->); [done|].
    change (Z.of_nat (length tamper_methods)) with 6 in Hm'.
    rewrite <- Hr, Nat2Z.id in Hm'.
    split.
    + intros [= <-].
      do 6 (destruct j as [|j]; [by simplify_eq/=|]). lia.
    + intros ->. destruct m; simpl in Hm'; by simplify_eq.
  - intros w src out img Hsrc.
    destruct (tamper_image_run w src out img Hsrc) as (m & Hm & ->).
    destruct (choice_unfold tamper_methods w) as (m' & Hm' & Hc); [done|].
    change (Z.of_nat (length tamper_methods)) with 6 in Hm'.
    exists m. split; [|done]. congruence.
Qed.

Lemma randint_run a b w :
  a ≤ b → ∃ v, a ≤ v ≤ b ∧ randint a b w = (Ok v, set_cursor (S (cursor w)) w).
Proof.
  intros Hab. unfold randint. case_decide; [lia|].
  assert (0 < b - a + 1) as Hn by lia.
  pose proof (randbelow_range (b - a + 1) w Hn).
  eexists. split; [|reflexivity]. lia.
Qed.

(** A filled rectangle changes the raster exactly when some pixel of the
    raster inside it does not have the fill colour yet. *)
Lemma differs_draw_rectangle x1 y1 x2 y2 c img :
  differs_somewhere img (draw_rectangle x1 y1 x2 y2 c img) ↔
  ∃ x y, in_image img x y ∧ (x1 ≤ x ≤ x2 ∧ y1 ≤ y ≤ y2) ∧ px img x y ≠ c.
Proof.
  unfold differs_somewhere, draw_rectangle, in_box. simpl. split.
  - intros (x & y & Hin & Hne). exists x, y.
    destruct (decide (x1 ≤ x ≤ x2 ∧ y1 ≤ y ≤ y2)) as [Hb|Hb].
    + by rewrite bool_decide_true in Hne.
    + by rewrite bool_decide_false in Hne.
  - intros (x & y & Hin & Hbox & Hne). exists x, y. split; [done|].
    by rewrite bool_decide_true.
Qed.

Lemma apply_black_box_run img w :
  fits fn_apply_black_box img →
  ∃ x1 y1 x2 y2 w',
    50 ≤ x1 ≤ width img `div` 2 ∧ 50 ≤ y1 ≤ height img `div` 2 ∧
    50 ≤ x2 - x1 ≤ 150 ∧ 20 ≤ y2 - y1 ≤ 50 ∧
    apply_black_box img w = (Ok (draw_rectangle x1 y1 x2 y2 black img), w').
Proof.
  simpl. intros [Hw Hh].
  destruct (randint_run 50 (width img `div` 2) w Hw) as (x1 & Hx1 & E1).
  destruct (randint_run 50 (height img `div` 2) (set_cursor (S (cursor w)) w) Hh)
    as (y1 & Hy1 & E2).
  set (w2 := set_cursor _ (set_cursor _ w)) in E2.
  destruct (randint_run 50 150 w2) as (dx & Hdx & E3); [lia|].
  set (w3 := set_cursor _ w2) in E3.
  destruct (randint_run 20 50 w3) as (dy & Hdy & E4); [lia|].
  eexists x1, y1, (x1 + dx), (y1 + dy), _. split_and!; try lia.
  unfold apply_black_box.
  rewrite (bind_Ok _ _ _ _ _ E1), (bind_Ok _ _ _ _ _ E2),
    (bind_Ok _ _ _ _ _ E3), (bind_Ok _ _ _ _ _ E4). reflexivity.
Qed.

Lemma apply_whiteout_run img w :
  fits fn_apply_whiteout img →
  ∃ x1 y1 x2 y2 w',
    100 ≤ x1 ≤ width img - 200 ∧ 100 ≤ y1 ≤ height img - 100 ∧
    80 ≤ x2 - x1 ≤ 150 ∧ 20 ≤ y2 - y1 ≤ 40 ∧
    apply_whiteout img w = (Ok (draw_rectangle x1 y1 x2 y2 white img), w').
Proof.
  simpl. intros [Hw Hh].
  destruct (randint_run 100 (width img - 200) w Hw) as (x1 & Hx1 & E1).
  destruct (randint_run 100 (height img - 100) (set_cursor (S (cursor w)) w) Hh)
    as (y1 & Hy1 & E2).
  set (w2 := set_cursor _ (set_cursor _ w)) in E2.
  destruct (randint_run 80 150 w2) as (dx & Hdx & E3); [lia|].
  set (w3 := set_cursor _ w2) in E3.
  destruct (randint_run 20 40 w3) as (dy & Hdy & E4); [lia|].
  eexists x1, y1, (x1 + dx), (y1 + dy), _. split_and!; try lia.
  unfold apply_whiteout.
  rewrite (bind_Ok _ _ _ _ _ E1), (bind_Ok _ _ _ _ _ E2),
    (bind_Ok _ _ _ _ _ E3), (bind_Ok _ _ _ _ _ E4). reflexivity.
Qed.

(** C4, as amended: the black-box operator (resp. the whiteout operator),
    on an image large enough for its draws, returns the image with one
    filled rectangle drawn from the stated ranges, and that output differs
    from the source in at least one pixel exactly when the source has,
    inside the rectangle, a pixel that is not already black (resp. white). *)
Theorem C4_fill_changes_iff_not_filled img w :
  (fits fn_apply_black_box img →
   ∃ x1 y1 x2 y2 w',
     50 ≤ x1 ≤ width img `div` 2 ∧ 50 ≤ y1 ≤ height img `div` 2 ∧
     50 ≤ x2 - x1 ≤ 150 ∧ 20 ≤ y2 - y1 ≤ 50 ∧
     apply_black_box img w = (Ok (draw_rectangle x1 y1 x2 y2 black img), w') ∧
     (differs_somewhere img (draw_rectangle x1 y1 x2 y2 black img) ↔
      ∃ x y, in_image img x y ∧ (x1 ≤ x ≤ x2 ∧ y1 ≤ y ≤ y2) ∧ px img x y ≠ black)) ∧
  (fits fn_apply_whiteout img →
   ∃ x1 y1 x2 y2 w',
     100 ≤ x1 ≤ width img - 200 ∧ 100 ≤ y1 ≤ height img - 100 ∧
     80 ≤ x2 - x1 ≤ 150 ∧ 20 ≤ y2 - y1 ≤ 40 ∧
     apply_whiteout img w = (Ok (draw_rectangle x1 y1 x2 y2 white img), w') ∧
     (differs_somewhere img (draw_rectangle x1 y1 x2 y2 white img) ↔
      ∃ x y, in_image img x y ∧ (x1 ≤ x ≤ x2 ∧ y1 ≤ y ≤ y2) ∧ px img x y ≠ white)).
Proof.
  split; intros Hfit.
  - destruct (apply_black_box_run img w Hfit)
      as (x1 & y1 & x2 & y2 & w' & ? & ? & ? & ? & E).
    exists x1, y1, x2, y2, w'. split_and!; try lia; [done|].
    apply differs_draw_rectangle.
  - destruct (apply_whiteout_run img w Hfit)
      as (x1 & y1 & x2 & y2 & w' & ? & ? & ? & ? & E).
    exists x1, y1, x2, y2, w'. split_and!; try lia; [done|].
    apply differs_draw_rectangle.
Qed.

(** C8, as amended: when the preferred truetype font is not installed, the font probe
    of the fake-text operator yields the default font and raises nothing;
    the operator then returns the text drawn in the default font on every
    image that leaves its two position ranges non-empty; the only error it
    can raise is the [ValueError] of an empty position range, never one
    about the font: it raises exactly when it would with any other set of
    installed fonts; and the driver still completes a batch of large enough
    images. *)
Theorem C8_font_fallback img w :
  installed_fonts w "arial.ttf" = false →
  try_except (ImageFont_truetype "arial.ttf" 22) ImageFont_load_default w
  = (Ok DefaultFont, w) ∧
  (fits fn_apply_fake_text img →
   ∃ x y w',
     100 ≤ x ≤ width img - 150 ∧ 100 ≤ y ≤ height img - 50 ∧
     apply_fake_text img w
     = (Ok (draw_text x y "FAKE $999" red DefaultFont img), w')) ∧
  (∀ e, (apply_fake_text img w).1 = Raise e →
        e = ValueError ∧ ¬ fits fn_apply_fake_text img) ∧
  (∀ fonts e,
     (apply_fake_text img w).1 = Raise e ↔
     (apply_fake_text img (World (real_dir w) (tampered_dir w) fonts
                                 (entropy w) (cursor w) (stdout w))).1 = Raise e) ∧
  (∀ n entries,
     real_dir w = Listing entries →
     (∀ name f, entries !! name = Some f → roomy f) → 0 ≤ n →
     (generate_tampered_images n w).1 = Ok tt).
Proof.
  intros Hfont.
  assert (try_except (ImageFont_truetype "arial.ttf" 22) ImageFont_load_default w
          = (Ok DefaultFont, w)) as Hprobe by (by rewrite font_probe, Hfont).
  split_and!.
  - done.
  - simpl. intros [Hw Hh].
    destruct (randint_run 100 (width img - 150) w Hw) as (x & Hx & E1).
    destruct (randint_run 100 (height img - 50) (set_cursor (S (cursor w)) w) Hh)
      as (y & Hy & E2).
    eexists x, y, _. split_and!; try lia.
    unfold apply_fake_text.
    rewrite (bind_Ok _ _ _ _ _ Hprobe), (bind_Ok _ _ _ _ _ E1),
      (bind_Ok _ _ _ _ _ E2). reflexivity.
  - intros e He.
    destruct (call_outcome fn_apply_fake_text img w) as [_ Hout].
    simpl call in Hout. rewrite He in Hout.
    case_decide; [destruct Hout as (? & ? & _); discriminate|].
    split; [congruence | done].
  - intros fonts e.
    destruct (call_outcome fn_apply_fake_text img w) as [_ Hout].
    destruct (call_outcome fn_apply_fake_text img
                (World (real_dir w) (tampered_dir w) fonts
                       (entropy w) (cursor w) (stdout w))) as [_ Hout'].
    simpl call in Hout, Hout'. case_decide.
    + destruct Hout as (? & -> & _), Hout' as (? & -> & _). done.
    + by rewrite Hout, Hout'.
  - intros n entries Hes Hroomy Hn.
    destruct (driver_roomy n w entries Hes Hroomy Hn) as (sel & w' & -> & _).
    done.
Qed.

Lemma driver_raise_silent (n : Z) w e :
  (generate_tampered_images n w).1 = Raise e →
  stdout (generate_tampered_images n w).2 = stdout w.
Proof.
  destruct (real_dir w) as [| |entries] eqn:Hes.
  - destruct (driver_no_listing n w) as (e' & _ & ->); [by left | done].
  - destruct (driver_no_listing n w) as (e' & _ & ->); [by right | done].
  - destruct (decide (0 ≤ n)) as [Hn|Hn].
    2:{ by rewrite (driver_negative_count n w entries Hes) by lia. }
    destruct (driver_run n w entries Hes Hn) as (sel & w1 & _ & Hf & _ & _ & _ & ->).
    pose proof (loop_outcome sel 0 w1) as Hloop. cbn zeta in Hloop.
    destruct Hloop as ((_ & _ & _ & Hs2) & _).
    destruct Hf as (_ & _ & _ & _ & Hs1).
    destruct (for_in _ _ tt w1) as [[[]|e'] w2]; simpl in *; [discriminate|].
    intros _. congruence.
Qed.

(** C9: each operator raises [ValueError] from its parameter draws on an
    image too small for one of its ranges (narrower or lower than 100 for
    the black box, 250 by 150 for fake text and for blur, 300 by 200 for
    whiteout, 150 by 150 for the shape overlay, narrower than 300 for the
    signature); [tamper_image] passes the error on and stores nothing; the
    driver has no handler, so whenever it raises no summary has been
    printed; and when the sample holds an image too small for all six
    (narrower than 100 pixels, or lower than 100 and narrower than 300),
    the driver raises (a [ValueError] when every entry decodes). *)
Theorem C9_minimum_image_size :
  (∀ img w, width img < 100 ∨ height img < 100 →
            (apply_black_box img w).1 = Raise ValueError) ∧
  (∀ img w, width img < 250 ∨ height img < 150 →
            (apply_fake_text img w).1 = Raise ValueError) ∧
  (∀ img w, width img < 250 ∨ height img < 150 →
            (apply_blur_patch img w).1 = Raise ValueError) ∧
  (∀ img w, width img < 300 ∨ height img < 200 →
            (apply_whiteout img w).1 = Raise ValueError) ∧
  (∀ img w, width img < 150 ∨ height img < 150 →
            (overlay_random_shape img w).1 = Raise ValueError) ∧
  (∀ img w, width img < 300 →
            (apply_fake_signature img w).1 = Raise ValueError) ∧
  (∀ w src out img m w1,
     source_image w src img →
     choice tamper_methods w = (Ok m, w1) → ¬ fits m img →
     ∃ w', tamper_image (os_path_join REAL_DIR src)
                        (os_path_join TAMPERED_DIR out) w = (Raise ValueError, w') ∧
           tampered_dir w' = tampered_dir w) ∧
  (∀ n w e,
     (generate_tampered_images n w).1 = Raise e →
     stdout (generate_tampered_images n w).2 = stdout w) ∧
  (∀ n w entries sel w1 src img,
     real_dir w = Listing entries →
     sample (map_to_list entries).*1
            (n `min` Z.of_nat (length (map_to_list entries).*1)) w = (Ok sel, w1) →
     src ∈ sel → entries !! src = Some (ImageFile img) →
     width img < 100 ∨ (height img < 100 ∧ width img < 300) →
     ∃ e w', generate_tampered_images n w = (Raise e, w') ∧
             stdout w' = stdout w ∧
             ((∀ name f, entries !! name = Some f → decodable f) → e = ValueError)).
Proof.
  split_and!.
  - intros img w Hsmall. apply (call_fails fn_apply_black_box). simpl.
    destruct Hsmall as [Hs|Hs]; apply halves_below in Hs; lia.
  - intros img w Hsmall. apply (call_fails fn_apply_fake_text). simpl. lia.
  - intros img w Hsmall. apply (call_fails fn_apply_blur_patch). simpl. lia.
  - intros img w Hsmall. apply (call_fails fn_apply_whiteout). simpl. lia.
  - intros img w Hsmall. apply (call_fails fn_overlay_random_shape). simpl. lia.
  - intros img w Hsmall. apply (call_fails fn_apply_fake_signature). simpl. lia.
  - intros w src out img m w1 Hsrc Hc Hunfit.
    destruct (tamper_image_run w src out img Hsrc) as (m' & Hm' & ->).
    destruct (choice_unfold tamper_methods w) as (m2 & Hm2 & Hc2); [done|].
    change (Z.of_nat (length tamper_methods)) with 6 in Hm2.
    assert (m' = m) as -> by congruence.
    destruct (call_outcome m img (set_cursor (S (cursor w)) w)) as [Hf Hout].
    case_decide; [done|].
    destruct (call m img _) as [r w'] eqn:E. simpl in *. subst r.
    exists w'. split; [done|]. by destruct Hf as (_ & ? & _).
  - apply driver_raise_silent.
  - intros n w entries sel w1 src img Hes Es Hsel Hsrc Hnarrow.
    assert (0 ≤ n) as Hn.
    { pose proof (sample_spec (map_to_list entries).*1
                    (n `min` Z.of_nat (length (map_to_list entries).*1)) w) as Hs.
      case_decide; [lia|]. congruence. }
    destruct (driver_run n w entries Hes Hn)
      as (sel' & w1' & Es' & Hf & _ & _ & Hin & ->).
    assert (sel' = sel ∧ w1' = w1) as [-> ->] by (split; congruence).
    pose proof (loop_outcome sel 0 w1) as Hloop. cbn zeta in Hloop.
    destruct Hloop as (Hq & done & Hres & Hdone & _).
    assert (real_dir w1 = real_dir w) as Hr1 by (by destruct Hf as (?&_)).
    assert (stdout w1 = stdout w) as Hs1 by (by destruct Hf as (_&_&_&_&?)).
    destruct (for_in _ _ tt w1) as [[[]|e] w2]; simpl in *.
    + exfalso. subst done.
      apply list_elem_of_lookup_1 in Hsel as [j Hj].
      destruct (Hdone j) as (src' & img' & m & _ & _ & _ & Hl & Hsrc' & _ & Hfit & _).
      { by eapply lookup_lt_Some. }
      assert (src' = src) as -> by congruence.
      destruct Hsrc' as (es & Hes' & Hl').
      assert (img' = img) as -> by congruence.
      by apply (small_unfit img m).
    + exists e, w2. split_and!; [done | |].
      * destruct Hq as (_ & _ & _ & ->). done.
      * intros Hdec. destruct Hres as (src0 & Hl0 & Hwhy).
        destruct (Hin src0) as [f Hf0]; [by eapply list_elem_of_lookup_2|].
        pose proof (Hdec src0 f Hf0) as Hd. destruct f as [img0| |]; try done.
        destruct (Hwhy img0) as [-> _]; [|done].
        exists entries. split; [congruence | done].
Qed.

End Claims.

(** ** The decision threshold *)

Lemma float_gt_half (p : pyfloat) :
  float_gt p half = true ↔ ∃ q, p = Finite q ∧ (1 # 2 < q)%Q.
Proof.
  unfold float_gt, half. destruct p as [q|].
  - destruct (Qlt_le_dec (1 # 2) q) as [Hlt|Hle].
    + split; [|done]. intros _. by exists q.
    + split; [done|]. intros (q' & [= <-] & Hlt).
      exfalso. by apply (Qlt_not_le _ _ Hlt).
  - split; [done|]. by intros (q & ? & _).
Qed.

(** C10: [predict] returns 1 exactly when the probability is a number
    strictly greater than 0.5, and 0 otherwise; an input scoring exactly 0.5
    gets 0 and the label for a real document, from the command-line tool
    and from the upload script alike. *)
Theorem C10_strict_threshold (tensor logit : Type)
    (sigmoid_item : logit → pyfloat) (model : tensor → logit)
    (x : tensor) (dev : device) :
  let r := infer.predict tensor logit sigmoid_item model x dev in
  r.2 = sigmoid_item (model x) ∧
  (r.1 = 1 ∨ r.1 = 0) ∧
  (r.1 = 1 ↔ ∃ q, r.2 = Finite q ∧ (1 # 2 < q)%Q) ∧
  app.pred tensor logit sigmoid_item model x = r.1 ∧
  (∀ q, r.2 = Finite q → (q == 1 # 2)%Q →
        r.1 = 0 ∧
        infer.main_label tensor logit sigmoid_item model x dev = "Real ✅" ∧
        app.label tensor logit sigmoid_item model x = "Real ✅").
Proof.
  intros r. subst r.
  unfold infer.main_label, app.label, app.pred, infer.predict. simpl.
  pose proof (float_gt_half (sigmoid_item (model x))) as Hgt.
  destruct (float_gt (sigmoid_item (model x)) half) eqn:E.
  - split_and!; [done | by left | | done |].
    + split; [intros _; by apply Hgt | done].
    + intros q Hq Heq. exfalso.
      destruct (proj1 Hgt eq_refl) as (q' & Hq' & Hlt).
      rewrite Hq in Hq'. injection Hq' as <-.
      rewrite Heq in Hlt. by apply (Qlt_irrefl (1 # 2)).
  - split_and!; [done | by right | | done | done].
    split; [done|]. intros Hex. apply Hgt in Hex. discriminate.
Qed.

(** ** The claims on sample inputs *)

Lemma two_invoices_roomy name f : two_invoices !! name = Some f → roomy f.
Proof.
  revert name f. apply map_Forall_insert_2; [simpl; lia|].
  apply map_Forall_singleton. simpl. lia.
Qed.

Lemma size_two_invoices : size two_invoices = 2%nat.
Proof. vm_compute. reflexivity. Qed.

(** One source image of 10 by 10 pixels and a count of 1: [min(1, 1) = 1],
    yet the driver raises [ValueError] and the output directory stays
    empty.  (The draws are 0, 1, ...: the sample takes the only name, the
    second draw selects index 1, fake text, whose first range is
    [100, -140].) *)
Lemma C1_tiny_source_counterexample :
  let w := world_of tiny_source 0 in
  let r := @generate_tampered_images sample_pillow 1 w in
  tiny_source !! "tiny.png" = Some (ImageFile (solid 10 10 white)) ∧
  Z.to_nat (1 `min` Z.of_nat (size tiny_source)) = 1%nat ∧
  r.1 = Raise ValueError ∧ tampered_dir r.2 = ∅.
Proof. cbv zeta. split_and!; vm_compute; reflexivity. Qed.

Lemma C1_driver_writes_min_n_m_witness :
  let r := @generate_tampered_images sample_pillow 5 (world_of two_invoices 7) in
  (∀ name f, two_invoices !! name = Some f → roomy f) ∧
  r.1 = Ok tt ∧
  dom (tampered_dir r.2) = ∅ ∪ tampered_names 2 ∧
  size (tampered_names 2) = 2%nat.
Proof.
  cbv zeta. split; [apply two_invoices_roomy|].
  destruct (@C1_driver_writes_min_n_m sample_pillow 5 (world_of two_invoices 7)
              two_invoices eq_refl two_invoices_roomy)
    as (Hok & Hdom & Hsize & _); [lia|].
  rewrite size_two_invoices in Hdom, Hsize.
  split_and!; [exact Hok | exact Hdom | exact Hsize].
Defined.

(** A black page under the black-box operator: the operator returns and
    no pixel has changed; and a batch whose draws pick that operator (the
    second draw, 6, selects index 0; the rectangle drawn goes from (57, 58)
    to (116, 88)) stores a copy of its source. *)
Lemma C4_black_on_black_counterexample :
  let img := solid 256 256 black in
  (∃ img', (apply_black_box img (world_of ∅ 0)).1 = Ok img' ∧
           ¬ differs_somewhere img img') ∧
  tampered_dir (@generate_tampered_images sample_pillow 1
                  (world_of black_page 5)).2 !! "tampered_0.jpg"
  = Some (draw_rectangle 57 58 116 88 black img) ∧
  ¬ differs_somewhere img (draw_rectangle 57 58 116 88 black img).
Proof.
  cbv zeta. split_and!.
  - destruct (apply_black_box_run (solid 256 256 black) (world_of ∅ 0))
      as (x1 & y1 & x2 & y2 & w' & _ & _ & _ & _ & ->);
      [apply (bool_decide_unpack _); vm_compute; exact I|].
    eexists. split; [reflexivity|].
    rewrite differs_draw_rectangle. by intros (x & y & _ & _ & Hne).
  - vm_compute. reflexivity.
  - rewrite differs_draw_rectangle. by intros (x & y & _ & _ & Hne).
Qed.

Lemma C4_fill_changes_iff_not_filled_witness :
  let img := solid 256 256 white in
  ∃ x1 y1 x2 y2 w',
    apply_black_box img (world_of ∅ 0)
    = (Ok (draw_rectangle x1 y1 x2 y2 black img), w') ∧
    differs_somewhere img (draw_rectangle x1 y1 x2 y2 black img).
Proof.
  cbv zeta.
  destruct (proj1 (C4_fill_changes_iff_not_filled (solid 256 256 white) (world_of ∅ 0)))
    as (x1 & y1 & x2 & y2 & w' & Hx & Hy & Hdx & Hdy & E & Hiff);
    [apply (bool_decide_unpack _); vm_compute; exact I|].
  exists x1, y1, x2, y2, w'. split; [exact E|].
  apply Hiff. exists x1, y1. simpl in *. unfold in_image. simpl.
  change (256 `div` 2) with 128 in Hx, Hy.
  split_and!; try lia. unfold white, black. intros Hc. discriminate Hc.
Defined.

Lemma C5_missing_source_directory_witness :
  real_dir no_source_world = Missing ∧
  ∃ e, MissingSourceDirectory e ∧
       @generate_tampered_images sample_pillow 600 no_source_world
       = (Raise e, no_source_world).
Proof.
  split; [reflexivity|].
  destruct (@C5_missing_source_directory sample_pillow 600 no_source_world)
    as (e & He & E & _); [by left|].
  exists e. split; [exact He | exact E].
Defined.

(** A source directory that holds one text file and no image, and a count
    of 1: the driver raises [UnidentifiedImageError] from [Image.open],
    which is not a listing error, and prints no report. *)
Lemma C6_notes_only_counterexample :
  let w := world_of notes_only 0 in
  let r := @generate_tampered_images sample_pillow 1 w in
  real_dir w = Listing notes_only ∧
  map_to_list notes_only = [("notes.txt", OtherFile)] ∧
  r.1 = Raise UnidentifiedImageError ∧
  ¬ MissingSourceDirectory UnidentifiedImageError ∧
  stdout r.2 = [] ∧ tampered_dir r.2 = ∅.
Proof.
  cbv zeta. split_and!; try (vm_compute; reflexivity).
  unfold MissingSourceDirectory. intros [Hc|Hc]; discriminate Hc.
Qed.

Lemma C6_empty_source_directory_witness :
  real_dir (world_of ∅ 0) = Listing ∅ ∧
  @generate_tampered_images sample_pillow 4 (world_of ∅ 0)
  = print "✅ Generated 0 tampered images in data/tampered/" (world_of ∅ 0).
Proof.
  split; [reflexivity|].
  destruct (@C6_empty_source_directory sample_pillow 4 (world_of ∅ 0) ∅ eq_refl)
    as (_ & Hreport & _).
  - intros name f Hl. by rewrite lookup_empty in Hl.
  - apply Hreport; [reflexivity | lia].
Defined.

(** One source image of 99 by 99 pixels and a count of 3, run twice:
    [min(3, 1) = 1], yet both runs raise and [tampered_0.jpg] never
    appears.  (The draws are 3, 4, ...: the first run selects index
    4 mod 6 = 4, the shape overlay, whose first range is [50, -1]; the
    second run selects index 6 mod 6 = 0, the black box, whose first range
    is [50, 49].) *)
Lemma C7_rerun_on_small_source_counterexample :
  let w := world_of stamp_source 3 in
  let r1 := @generate_tampered_images sample_pillow 3 w in
  let r2 := @generate_tampered_images sample_pillow 3 r1.2 in
  stamp_source !! "stamp.png" = Some (ImageFile (solid 99 99 white)) ∧
  Z.to_nat (3 `min` Z.of_nat (size stamp_source)) = 1%nat ∧
  r1.1 = Raise ValueError ∧ r2.1 = Raise ValueError ∧
  tampered_dir r2.2 !! "tampered_0.jpg" = None.
Proof. cbv zeta. split_and!; vm_compute; reflexivity. Qed.

Lemma C7_rerun_overwrites_witness :
  let r1 := @generate_tampered_images sample_pillow 5 (world_of two_invoices 7) in
  let r2 := @generate_tampered_images sample_pillow 5 r1.2 in
  (∀ name f, two_invoices !! name = Some f → roomy f) ∧
  r1.1 = Ok tt ∧ r2.1 = Ok tt ∧
  dom (tampered_dir r2.2) = tampered_names 2 ∧ size (tampered_dir r2.2) = 2%nat.
Proof.
  cbv zeta. split; [apply two_invoices_roomy|].
  destruct (@C7_rerun_overwrites sample_pillow 5 (world_of two_invoices 7)
              two_invoices eq_refl two_invoices_roomy)
    as (Hok1 & Hok2 & _ & _ & Hfresh & _); [lia|].
  rewrite size_two_invoices in Hfresh.
  destruct (Hfresh eq_refl) as [Hdom Hsize].
  split_and!; [exact Hok1 | exact Hok2 | exact Hdom | exact Hsize].
Defined.

(** A 10 by 10 image with no font installed: the font probe falls back,
    and the operator then raises [ValueError] on its first position range,
    [100, -140]; it does not complete. *)
Lemma C8_small_image_counterexample :
  let img := solid 10 10 white in
  let w := world_of ∅ 0 in
  installed_fonts w "arial.ttf" = false ∧
  try_except (ImageFont_truetype "arial.ttf" 22) ImageFont_load_default w
  = (Ok DefaultFont, w) ∧
  (@apply_fake_text sample_pillow img w).1 = Raise ValueError.
Proof. cbv zeta. split_and!; vm_compute; reflexivity. Qed.

Lemma C8_font_fallback_witness :
  let img := solid 300 200 white in
  let w := world_of ∅ 0 in
  installed_fonts w "arial.ttf" = false ∧
  ∃ x y w',
    @apply_fake_text sample_pillow img w
    = (Ok (@draw_text sample_pillow x y "FAKE $999" red DefaultFont img), w').
Proof.
  cbv zeta. split; [reflexivity|].
  destruct (@C8_font_fallback sample_pillow (solid 300 200 white) (world_of ∅ 0) eq_refl)
    as (_ & Hdraw & _).
  destruct Hdraw as (x & y & w' & _ & _ & E);
    [apply (bool_decide_unpack _); vm_compute; exact I|].
  exists x, y, w'. exact E.
Defined.

Lemma C9_minimum_image_size_witness :
  (apply_black_box (solid 99 400 white) (world_of ∅ 0)).1 = Raise ValueError ∧
  ∃ w', @generate_tampered_images sample_pillow 3 (world_of stamp_source 3)
        = (Raise ValueError, w') ∧
        stdout w' = [].
Proof.
  destruct (@C9_minimum_image_size sample_pillow)
    as (Hbox & _ & _ & _ & _ & _ & _ & _ & Hdriver).
  split; [apply Hbox; left; simpl; lia|].
  destruct (Hdriver 3 (world_of stamp_source 3) stamp_source
              ["stamp.png"] (set_cursor 1 (world_of stamp_source 3))
              "stamp.png" (solid 99 99 white) eq_refl)
    as (e & w' & E & Hout & He).
  - vm_compute; reflexivity.
  - by apply list_elem_of_singleton.
  - reflexivity.
  - left. simpl. lia.
  - assert (e = ValueError) as ->.
    { apply He. unfold stamp_source. apply map_Forall_singleton. exact I. }
    exists w'. split; [exact E | exact Hout].
Defined.

Lemma C10_strict_threshold_witness :
  infer.predict unit Q Finite (λ _, 1 # 2)%Q tt cpu = (0, Finite (1 # 2)) ∧
  infer.main_label unit Q Finite (λ _, 1 # 2)%Q tt cpu = "Real ✅" ∧
  app.label unit Q Finite (λ _, 1 # 2)%Q tt = "Real ✅".
Proof.
  destruct (C10_strict_threshold unit Q Finite (λ _, 1 # 2)%Q tt cpu)
    as (_ & _ & _ & _ & Hhalf).
  destruct (Hhalf (1 # 2)%Q eq_refl) as (_ & Hcli & Hui); [reflexivity|].
  split_and!; [reflexivity | exact Hcli | exact Hui].
Defined.

(** ** Further properties of the driver *)

Lemma for_in_app {A S} (l1 l2 : list A) (body : A → S → M S) s w :
  for_in (l1 ++ l2) body s w
  = match for_in l1 body s w with
    | (Ok s', w1) => for_in l2 body s' w1
    | (Raise e, w1) => (Raise e, w1)
    end.
Proof.
  revert s w. induction l1 as [|x l1 IH]; intros s w; [done|].
  cbn [app for_in]. unfold mbind, M_bind, bind.
  destruct (body x s w) as [[s'|e] w1]; [apply IH | done].
Qed.

Lemma enumerate_from_app {A} (i : nat) (l1 l2 : list A) :
  enumerate_from i (l1 ++ l2)
  = enumerate_from i l1 ++ enumerate_from (i + length l1) l2.
Proof.
  revert i. induction l1 as [|x l1 IH]; intros i; simpl.
  - by rewrite Nat.add_0_r.
  - rewrite IH. by replace (S i + length l1)%nat with (i + S (length l1))%nat by lia.
Qed.

Section Driver_more.
Context `{Pillow}.

Let body : nat * string → unit → M unit :=
  λ '(i, filename) _,
    tamper_image (os_path_join REAL_DIR filename)
                 (os_path_join TAMPERED_DIR (tampered_name i)).

(** The loop on names that all hold large enough images: it returns, every
    name has its output and nothing else is touched. *)
Lemma loop_roomy sel i w entries :
  real_dir w = Listing entries →
  (∀ src, src ∈ sel → ∃ f, entries !! src = Some f ∧ roomy f) →
  ∃ w',
    for_in (enumerate_from i sel) body tt w = (Ok tt, w') ∧ quiet w w' ∧
    (∀ j src, sel !! j = Some src →
       ∃ img img',
         entries !! src = Some (ImageFile img) ∧
         tampered_dir w' !! tampered_name (i + j) = Some img' ∧
         same_size img' img) ∧
    (∀ name, (∀ j, (j < length sel)%nat → name ≠ tampered_name (i + j)) →
             tampered_dir w' !! name = tampered_dir w !! name).
Proof.
  intros Hes Hroomy.
  pose proof (loop_outcome sel i w) as Hloop. cbn zeta in Hloop.
  destruct Hloop as (Hq & done & Hres & Hdone & Hrest).
  fold body in Hq, Hres, Hdone, Hrest.
  destruct (for_in (enumerate_from i sel) body tt w) as [[[]|e] w'] eqn:E;
    simpl in *.
  2:{ exfalso. destruct Hres as (src & Hl & Hwhy).
      destruct (Hroomy src) as (f & Hf & Hroom); [by eapply list_elem_of_lookup_2|].
      destruct f as [img| |]; try done.
      destruct (Hwhy img) as (_ & m & _ & Hunfit); [by exists entries|].
      destruct Hroom. by apply Hunfit, roomy_fits. }
  subst done. exists w'. split_and!; try done.
  intros j src Hj.
  destruct (Hdone j) as (src' & img & m & wa & wb & img' & Hl & Hsrc & _ & _ & _ & Hsz & Hlk).
  { by eapply lookup_lt_Some. }
  assert (src' = src) as -> by congruence.
  exists img, img'. split_and!; try done.
  destruct Hsrc as (es & ? & ?). congruence.
Qed.

(** X1: whatever the count and the world, and whether it returns or
    raises, the driver leaves the source directory, the installed fonts and
    the random stream as they were. *)
Theorem driver_preserves_source (n : Z) w :
  let r := generate_tampered_images n w in
  real_dir r.2 = real_dir w ∧ installed_fonts r.2 = installed_fonts w ∧
  entropy r.2 = entropy w.
Proof.
  cbv zeta.
  destruct (real_dir w) as [| |entries] eqn:Hes.
  - destruct (driver_no_listing n w) as (e & _ & ->); [by left|]. simpl. by rewrite Hes.
  - destruct (driver_no_listing n w) as (e & _ & ->); [by right|]. simpl. by rewrite Hes.
  - destruct (decide (0 ≤ n)) as [Hn|Hn].
    2:{ rewrite (driver_negative_count n w entries Hes) by lia. simpl. by rewrite Hes. }
    destruct (driver_run n w entries Hes Hn) as (sel & w1 & _ & Hf & _ & _ & _ & ->).
    pose proof (loop_outcome sel 0 w1) as Hloop. cbn zeta in Hloop.
    destruct Hloop as ((Hr2 & Hi2 & He2 & _) & _).
    destruct Hf as (Hr1 & _ & Hi1 & He1 & _).
    destruct (for_in _ _ tt w1) as [[[]|e] w2]; simpl in *;
      split_and!; congruence.
Qed.

(** X2: with a negative count the driver writes nothing and prints nothing;
    it raises the listing error when the source directory cannot be listed
    and the [ValueError] of [random.sample] otherwise. *)
Theorem negative_count_raises (n : Z) w :
  n < 0 →
  ∃ e, generate_tampered_images n w = (Raise e, w) ∧
       ((∃ entries, real_dir w = Listing entries) → e = ValueError) ∧
       ((∀ entries, real_dir w ≠ Listing entries) → MissingSourceDirectory e).
Proof.
  intros Hn. destruct (real_dir w) as [| |entries] eqn:Hes.
  - destruct (driver_no_listing n w) as (e & He & ->); [by left|].
    exists e. split_and!; [done | by intros [? ?] | done].
  - destruct (driver_no_listing n w) as (e & He & ->); [by right|].
    exists e. split_and!; [done | by intros [? ?] | done].
  - exists ValueError. rewrite (driver_negative_count n w entries Hes Hn).
    split_and!; [done..|]. intros Hno. by destruct (Hno entries).
Qed.

(** X3: whenever the driver returns, the source directory was listed, the
    count was not negative, exactly one line was printed, and the number in
    it, [min(n, M)], is the number of outputs [tampered_0.jpg] ..
    that the run stored. *)
Theorem summary_is_accurate (n : Z) w :
  (generate_tampered_images n w).1 = Ok tt →
  ∃ entries,
    real_dir w = Listing entries ∧ 0 ≤ n ∧
    let k := Z.to_nat (n `min` Z.of_nat (size entries)) in
    stdout (generate_tampered_images n w).2 = stdout w ++ [summary k] ∧
    ∀ j, (j < k)%nat →
         is_Some (tampered_dir (generate_tampered_images n w).2 !! tampered_name j).
Proof.
  destruct (real_dir w) as [| |entries] eqn:Hes.
  - destruct (driver_no_listing n w) as (e & _ & ->); [by left | done].
  - destruct (driver_no_listing n w) as (e & _ & ->); [by right | done].
  - destruct (decide (0 ≤ n)) as [Hn|Hn].
    2:{ by rewrite (driver_negative_count n w entries Hes) by lia. }
    destruct (driver_run n w entries Hes Hn) as (sel & w1 & _ & Hf & _ & Hlen & _ & ->).
    pose proof (loop_outcome sel 0 w1) as Hloop. cbn zeta in Hloop.
    destruct Hloop as ((_ & _ & _ & Hs2) & done & Hres & Hdone & _).
    destruct Hf as (_ & _ & _ & _ & Hs1).
    destruct (for_in _ _ tt w1) as [[[]|e] w2]; simpl in *; [|done].
    intros _. exists entries. split; [done|]. split; [done|].
    cbv zeta. rewrite <- Hlen. subst done. split.
    + congruence.
    + intros j Hj. destruct (Hdone j Hj) as (?&?&?&?&?& img' &?&?&?&?&?&?& Hlk).
      by exists img'.
Qed.

(** X4: with a count of zero the driver returns on every listable source
    directory, whatever its entries: it opens no file, draws nothing,
    writes nothing and reports zero images. *)
Theorem zero_count_reports_zero w entries :
  real_dir w = Listing entries →
  generate_tampered_images 0 w
  = print "✅ Generated 0 tampered images in data/tampered/" w.
Proof.
  intros Hes. unfold generate_tampered_images.
  rewrite (bind_Ok _ _ _ _ _ (listdir_real w entries Hes)).
  assert (sample (map_to_list entries).*1
            (0 `min` Z.of_nat (length (map_to_list entries).*1)) w = (Ok [], w)) as E.
  { replace (0 `min` Z.of_nat (length (map_to_list entries).*1)) with 0 by lia.
    unfold sample. case_decide; [done | lia]. }
  by rewrite (bind_Ok _ _ _ _ _ E).
Qed.

(** X5: when the sample reaches an entry that is not an image after
    [len(pre)] large enough images, the driver raises the error of
    [Image.open] for that entry ([UnidentifiedImageError] for a file,
    [IsADirectoryError] for a directory) and prints nothing; the outputs of
    the images before it stay in the output directory. *)
Theorem undecodable_entry_aborts (n : Z) w entries pre bad post w1 f :
  real_dir w = Listing entries →
  sample (map_to_list entries).*1
         (n `min` Z.of_nat (length (map_to_list entries).*1)) w
  = (Ok (pre ++ bad :: post), w1) →
  (∀ src, src ∈ pre → ∃ g, entries !! src = Some g ∧ roomy g) →
  entries !! bad = Some f → ¬ decodable f →
  ∃ w',
    generate_tampered_images n w
    = (Raise (match f with
              | Directory => IsADirectoryError
              | _ => UnidentifiedImageError
              end), w') ∧
    stdout w' = stdout w ∧
    dom (tampered_dir w') = dom (tampered_dir w) ∪ tampered_names (length pre) ∧
    ∀ name, name ∉ tampered_names (length pre) →
            tampered_dir w' !! name = tampered_dir w !! name.
Proof.
  intros Hes Es Hpre Hbad Hf.
  assert (0 ≤ n) as Hn.
  { pose proof (sample_spec (map_to_list entries).*1
                  (n `min` Z.of_nat (length (map_to_list entries).*1)) w) as Hs.
    case_decide; [lia|]. congruence. }
  destruct (driver_run n w entries Hes Hn) as (sel' & w1' & Es' & Hfr & _ & _ & _ & ->).
  assert (sel' = pre ++ bad :: post ∧ w1' = w1) as [-> ->] by (split; congruence).
  destruct Hfr as (Hr1 & Ht1 & _ & _ & Hs1).
  fold body. rewrite enumerate_from_app, for_in_app.
  destruct (loop_roomy pre 0 w1 entries) as (w2 & -> & Hq & Hfiles & Hkeep);
    [congruence | done |].
  destruct Hq as (Hr2 & _ & _ & Hs2).
  cbn [enumerate_from for_in].
  rewrite (bind_Raise _ _ _
    (match f with Directory => IsADirectoryError | _ => UnidentifiedImageError end) w2).
  2:{ apply tamper_image_open_error. unfold Image_open. simpl.
      rewrite Hr2, Hr1, Hes, Hbad. by destruct f. }
  exists w2. split_and!; [done | congruence | |].
  - apply set_eq. intros name. rewrite elem_of_union, !elem_of_dom.
    destruct (decide (name ∈ tampered_names (length pre))) as [Hname|Hname].
    + split; [by right|]. intros _.
      apply elem_of_tampered_names in Hname as (j & Hj & ->).
      destruct (lookup_lt_is_Some_2 pre j Hj) as [src Hsrc].
      destruct (Hfiles j src Hsrc) as (img & img' & _ & Hlk & _). by exists img'.
    + rewrite Hkeep, Ht1; [tauto|].
      intros j Hj ->. apply Hname, elem_of_tampered_names. by exists j.
  - intros name Hname. rewrite Hkeep, Ht1; [done|].
    intros j Hj ->. apply Hname, elem_of_tampered_names. by exists j.
Qed.

(** X6: when the count is at least the number of entries and every entry is
    a large enough image, the sample is a rearrangement of the whole
    listing: the driver returns and every source image has exactly one
    position [j] in it, whose output [tampered_j.jpg] has its dimensions. *)
Theorem large_count_uses_every_source (n : Z) w entries :
  real_dir w = Listing entries →
  (∀ name f, entries !! name = Some f → roomy f) →
  Z.of_nat (size entries) ≤ n →
  let r := generate_tampered_images n w in
  r.1 = Ok tt ∧
  ∃ sel,
    (sample (map_to_list entries).*1
            (n `min` Z.of_nat (length (map_to_list entries).*1)) w).1 = Ok sel ∧
    sel ≡ₚ (map_to_list entries).*1 ∧
    ∀ src f, entries !! src = Some f →
      ∃ j img img',
        sel !! j = Some src ∧ (∀ j', sel !! j' = Some src → j' = j) ∧
        f = ImageFile img ∧
        tampered_dir r.2 !! tampered_name j = Some img' ∧ same_size img' img.
Proof.
  intros Hes Hroomy Hn. cbv zeta.
  destruct (driver_run n w entries Hes) as (sel & w1 & Es & Hfr & Hnd & Hlen & Hin & ->);
    [lia|].
  destruct (listed_names entries) as (Hnd' & Hlen' & Hin').
  assert (sel ≡ₚ (map_to_list entries).*1) as Hperm.
  { apply submseteq_length_Permutation.
    - apply NoDup_submseteq; [done|]. intros x Hx. by apply Hin', Hin.
    - rewrite Hlen, Hlen'. lia. }
  destruct Hfr as (Hr1 & _).
  destruct (loop_roomy sel 0 w1 entries) as (w2 & E & _ & Hfiles & _); [congruence | |].
  { intros src Hsrc. destruct (Hin src Hsrc) as [f Hf]. exists f. eauto. }
  fold body. rewrite E, print_run. simpl. split; [done|].
  exists sel. rewrite Es. split_and!; [done | done|].
  intros src f Hf.
  assert (src ∈ sel) as Hsrc by (rewrite Hperm; apply Hin'; eauto).
  apply list_elem_of_lookup_1 in Hsrc as [j Hj].
  destruct (Hfiles j src Hj) as (img & img' & Himg & Hlk & Hsz).
  exists j, img, img'. split_and!; try done.
  - intros j' Hj'. exact (NoDup_lookup sel j' j src Hnd Hj' Hj).
  - congruence.
Qed.

(** X7: re-running with a smaller count does not clean up: when a run with
    count [n1] is followed by a run with [n2 <= n1] on large enough images,
    the second run returns, the outputs of the first run at the indices
    [min(n2, M)] .. [min(n1, M) - 1] are still there unchanged, and the
    output directory holds the same names as after the first run. *)
Theorem smaller_rerun_leaves_stale (n1 n2 : Z) w entries :
  real_dir w = Listing entries →
  (∀ name f, entries !! name = Some f → roomy f) →
  0 ≤ n2 ≤ n1 →
  let k1 := Z.to_nat (n1 `min` Z.of_nat (size entries)) in
  let k2 := Z.to_nat (n2 `min` Z.of_nat (size entries)) in
  let r1 := generate_tampered_images n1 w in
  let r2 := generate_tampered_images n2 r1.2 in
  r2.1 = Ok tt ∧
  dom (tampered_dir r2.2) = dom (tampered_dir r1.2) ∧
  ∀ j, (k2 ≤ j < k1)%nat →
       is_Some (tampered_dir r1.2 !! tampered_name j) ∧
       tampered_dir r2.2 !! tampered_name j = tampered_dir r1.2 !! tampered_name j.
Proof.
  intros Hes Hroomy Hn k1 k2 r1 r2. subst r1 r2.
  destruct (driver_roomy n1 w entries Hes Hroomy)
    as (sel1 & w1 & -> & _ & _ & Hr1 & _ & Hfiles1 & _ & Hdom1); [lia|].
  simpl. rewrite Hes in Hr1.
  destruct (driver_roomy n2 w1 entries Hr1 Hroomy)
    as (sel2 & w2 & -> & _ & _ & _ & _ & _ & Hkeep2 & Hdom2); [lia|].
  simpl. fold k1 in Hfiles1, Hdom1. fold k2 in Hkeep2, Hdom2.
  split_and!; [done | |].
  - rewrite Hdom2, Hdom1. apply set_eq. intros name.
    rewrite !elem_of_union, !elem_of_tampered_names.
    split; [|tauto]. intros [?|(j & Hj & ->)]; [done|].
    right. exists j. split; [lia | done].
  - intros j Hj. split.
    + destruct (Hfiles1 j) as (?&?& img' &?&?& Hlk &?); [lia|]. by exists img'.
    + apply Hkeep2. rewrite elem_of_tampered_names.
      intros (j' & Hj' & Heq). apply tampered_name_inj in Heq. lia.
Qed.

(** X8: [tamper_image] opens its source first: when the source directory
    is missing or unreadable, or the entry is absent, a directory or a file
    that is not an image, the error of [Image.open] is the outcome and the
    world is untouched, so no random draw is consumed and nothing is
    saved. *)
Theorem tamper_image_bad_source (src : string) (sp : path) w :
  let run := tamper_image (os_path_join REAL_DIR src) sp w in
  (real_dir w = Missing → run = (Raise FileNotFoundError, w)) ∧
  (real_dir w = Unreadable → run = (Raise PermissionError, w)) ∧
  (∀ entries, real_dir w = Listing entries →
     (entries !! src = None → run = (Raise FileNotFoundError, w)) ∧
     (entries !! src = Some OtherFile → run = (Raise UnidentifiedImageError, w)) ∧
     (entries !! src = Some Directory → run = (Raise IsADirectoryError, w))).
Proof.
  cbv zeta. split_and!.
  - intros Hd. apply tamper_image_open_error. unfold Image_open. simpl. by rewrite Hd.
  - intros Hd. apply tamper_image_open_error. unfold Image_open. simpl. by rewrite Hd.
  - intros entries Hes. split_and!; intros El;
      apply tamper_image_open_error; unfold Image_open; simpl; by rewrite Hes, El.
Qed.

End Driver_more.

(** ** Further properties of the operators *)

Section Operators_more.
Context `{Pillow}.

Lemma call_returns_iff m img w :
  (∃ img' w', call m img w = (Ok img', w')) ↔ fits m img.
Proof.
  destruct (call_outcome m img w) as [_ Hout].
  destruct (call m img w) as [r w1]. simpl in Hout. case_decide.
  - destruct Hout as (img' & -> & _). split; [done|]. intros _. by exists img', w1.
  - subst r. split; [|done]. by intros (? & ? & ?).
Qed.

Lemma half_at_least (v : Z) : 50 ≤ v `div` 2 ↔ 100 ≤ v.
Proof.
  split; intros Hv.
  - destruct (decide (100 ≤ v)) as [|Hlt]; [done|].
    assert (v < 100) as Hs by lia. apply halves_below in Hs. lia.
  - apply Z.div_le_lower_bound; lia.
Qed.

Lemma rng_op_run {A} (P : A → Prop) (m : M A) w a w' :
  rng_op P m → m w = (Ok a, w') → P a.
Proof. intros Hm E. destruct (Hm w) as [_ HP]. by rewrite E in HP. Qed.

(** X10: each operator returns exactly on the images that meet its minimum
    size: 100 by 100 for the black box, 250 by 150 for fake text and for
    blur, 300 by 200 for whiteout, 150 by 150 for the shape overlay, and a
    width of 300, whatever the height, for the signature. *)
Theorem operator_returns_iff_large_enough img w :
  ((∃ img' w', apply_black_box img w = (Ok img', w')) ↔
   100 ≤ width img ∧ 100 ≤ height img) ∧
  ((∃ img' w', apply_fake_text img w = (Ok img', w')) ↔
   250 ≤ width img ∧ 150 ≤ height img) ∧
  ((∃ img' w', apply_blur_patch img w = (Ok img', w')) ↔
   250 ≤ width img ∧ 150 ≤ height img) ∧
  ((∃ img' w', apply_whiteout img w = (Ok img', w')) ↔
   300 ≤ width img ∧ 200 ≤ height img) ∧
  ((∃ img' w', overlay_random_shape img w = (Ok img', w')) ↔
   150 ≤ width img ∧ 150 ≤ height img) ∧
  ((∃ img' w', apply_fake_signature img w = (Ok img', w')) ↔
   300 ≤ width img).
Proof.
  split_and!.
  - rewrite (call_returns_iff fn_apply_black_box img w). simpl.
    by rewrite !half_at_least.
  - rewrite (call_returns_iff fn_apply_fake_text img w). simpl. lia.
  - rewrite (call_returns_iff fn_apply_blur_patch img w). simpl. lia.
  - rewrite (call_returns_iff fn_apply_whiteout img w). simpl. lia.
  - rewrite (call_returns_iff fn_overlay_random_shape img w). simpl. lia.
  - rewrite (call_returns_iff fn_apply_fake_signature img w). simpl. lia.
Qed.

(** X11: the black box, on an image of at least 100 by 100 pixels: the
    top-left corner of the rectangle lies inside the image and is black
    afterwards; every pixel of the result is black or as in the source; and
    no pixel left of column 50, above row 50, right of column
    [width // 2 + 150] or below row [height // 2 + 50] is changed. *)
Theorem black_box_geometry img w :
  100 ≤ width img → 100 ≤ height img →
  ∃ x1 y1 x2 y2 w',
    apply_black_box img w = (Ok (draw_rectangle x1 y1 x2 y2 black img), w') ∧
    in_image img x1 y1 ∧
    px (draw_rectangle x1 y1 x2 y2 black img) x1 y1 = black ∧
    (∀ x y, px (draw_rectangle x1 y1 x2 y2 black img) x y = black ∨
            px (draw_rectangle x1 y1 x2 y2 black img) x y = px img x y) ∧
    (∀ x y, x < 50 ∨ y < 50 ∨
            width img `div` 2 + 150 < x ∨ height img `div` 2 + 50 < y →
            px (draw_rectangle x1 y1 x2 y2 black img) x y = px img x y).
Proof.
  intros Hw Hh.
  destruct (apply_black_box_run img w) as (x1 & y1 & x2 & y2 & w' & Hx & Hy & Hdx & Hdy & E).
  { simpl. by rewrite !half_at_least. }
  exists x1, y1, x2, y2, w'.
  pose proof (Z.mul_div_le (width img) 2 eq_refl).
  pose proof (Z.mul_div_le (height img) 2 eq_refl).
  split_and!; [done | unfold in_image; lia | | |].
  - simpl. unfold in_box. rewrite bool_decide_true; [done | lia].
  - intros x y. simpl. destruct (in_box x1 y1 x2 y2 x y); auto.
  - intros x y Hout. simpl. unfold in_box. rewrite bool_decide_false; [done | lia].
Qed.

(** X12: whiteout, on an image of at least 300 by 200 pixels: the
    rectangle lies entirely inside the image, at least 50 pixels from the
    right edge and 60 from the bottom; afterwards every pixel of it is white
    and every other pixel is as in the source. *)
Theorem whiteout_geometry img w :
  300 ≤ width img → 200 ≤ height img →
  ∃ x1 y1 x2 y2 w',
    apply_whiteout img w = (Ok (draw_rectangle x1 y1 x2 y2 white img), w') ∧
    100 ≤ x1 ∧ x1 + 80 ≤ x2 ≤ width img - 50 ∧
    100 ≤ y1 ∧ y1 + 20 ≤ y2 ≤ height img - 60 ∧
    (∀ x y, x1 ≤ x ≤ x2 → y1 ≤ y ≤ y2 →
            in_image img x y ∧
            px (draw_rectangle x1 y1 x2 y2 white img) x y = white) ∧
    (∀ x y, ¬ (x1 ≤ x ≤ x2 ∧ y1 ≤ y ≤ y2) →
            px (draw_rectangle x1 y1 x2 y2 white img) x y = px img x y).
Proof.
  intros Hw Hh.
  destruct (apply_whiteout_run img w) as (x1 & y1 & x2 & y2 & w' & Hx & Hy & Hdx & Hdy & E).
  { simpl. lia. }
  exists x1, y1, x2, y2, w'. split_and!; try lia; [done | |].
  - intros x y Hxr Hyr. split; [unfold in_image; lia|].
    simpl. unfold in_box. rewrite bool_decide_true; [done | lia].
  - intros x y Hout. simpl. unfold in_box. by rewrite bool_decide_false.
Qed.

(** X13: localized blur, on an image of at least 250 by 150 pixels: the
    patch is the 150 by 50 block of source pixels at the drawn offset, which
    lies entirely inside the image (the crop never pads); the result holds
    the blurred patch on that block and the source everywhere else. *)
Theorem blur_patch_is_local img w :
  250 ≤ width img → 150 ≤ height img →
  ∃ x0 y0 w',
    let patch := crop x0 y0 (x0 + 150) (y0 + 50) img in
    apply_blur_patch img w = (Ok (paste (GaussianBlur 5 patch) x0 y0 img), w') ∧
    50 ≤ x0 ∧ x0 + 150 ≤ width img - 50 ∧ 50 ≤ y0 ∧ y0 + 50 ≤ height img - 50 ∧
    width patch = 150 ∧ height patch = 50 ∧
    (∀ i j, 0 ≤ i < 150 → 0 ≤ j < 50 → px patch i j = px img (x0 + i) (y0 + j)) ∧
    (∀ x y, x0 ≤ x < x0 + 150 → y0 ≤ y < y0 + 50 →
            px (paste (GaussianBlur 5 patch) x0 y0 img) x y
            = px (GaussianBlur 5 patch) (x - x0) (y - y0)) ∧
    (∀ x y, ¬ (x0 ≤ x < x0 + 150 ∧ y0 ≤ y < y0 + 50) →
            px (paste (GaussianBlur 5 patch) x0 y0 img) x y = px img x y).
Proof.
  intros Hw Hh.
  destruct (randint_run 50 (width img - 200) w) as (x0 & Hx & E1); [lia|].
  destruct (randint_run 50 (height img - 100) (set_cursor (S (cursor w)) w))
    as (y0 & Hy & E2); [lia|].
  eexists x0, y0, _. cbv zeta. split_and!; try lia.
  - unfold apply_blur_patch.
    rewrite (bind_Ok _ _ _ _ _ E1), (bind_Ok _ _ _ _ _ E2). reflexivity.
  - simpl. lia.
  - simpl. lia.
  - intros i j Hi Hj. simpl. rewrite bool_decide_true; [done | lia].
  - intros x y Hxr Hyr. simpl. rewrite bool_decide_true; [done | lia].
  - intros x y Hout. simpl. rewrite bool_decide_false; [done | lia].
Qed.

(** X14: fake text, on an image of at least 250 by 150 pixels: the literal
    text is drawn in red, in 22-point Arial when that font is installed and
    in the default font otherwise, anchored inside the image at least 100
    pixels from the left and top edges, 150 from the right and 50 from the
    bottom. *)
Theorem fake_text_anchor_and_font img w :
  250 ≤ width img → 150 ≤ height img →
  ∃ x y w',
    apply_fake_text img w
    = (Ok (draw_text x y "FAKE $999" red
             (if installed_fonts w "arial.ttf" then TrueType "arial.ttf" 22
              else DefaultFont) img), w') ∧
    100 ≤ x ≤ width img - 150 ∧ 100 ≤ y ≤ height img - 50 ∧
    in_image img x y.
Proof.
  intros Hw Hh.
  destruct (randint_run 100 (width img - 150) w) as (x & Hx & E1); [lia|].
  destruct (randint_run 100 (height img - 50) (set_cursor (S (cursor w)) w))
    as (y & Hy & E2); [lia|].
  eexists x, y, _. split_and!; try lia.
  - unfold apply_fake_text.
    rewrite (bind_Ok _ _ _ _ _ (font_probe w)), (bind_Ok _ _ _ _ _ E1),
      (bind_Ok _ _ _ _ _ E2). reflexivity.
  - unfold in_image. lia.
Qed.

End Operators_more.

Lemma ticks_ret {A} (a : A) : ticks 0 (mret a).
Proof. intros w b w' [= _ <-]. lia. Qed.

Lemma ticks_bind {A B} (n1 n2 n : nat) (m : M A) (k : A → M B) :
  ticks n1 m → (∀ a, ticks n2 (k a)) → n = (n1 + n2)%nat → ticks n (m ≫= k).
Proof.
  intros Hm Hk -> w b w' E.
  destruct (m w) as [[a|e] w1] eqn:Em.
  - rewrite (bind_Ok _ _ _ _ _ Em) in E.
    rewrite (Hk a w1 b w' E), (Hm w a w1 Em). lia.
  - by rewrite (bind_Raise _ _ _ _ _ Em) in E.
Qed.

Lemma ticks_randint a b : ticks 1 (randint a b).
Proof.
  intros w v w'. unfold randint. case_decide; [done|].
  unfold mbind, M_bind, bind, randbelow. intros [= _ <-]. simpl. lia.
Qed.

Lemma ticks_choice {A} (seq : list A) : ticks 1 (choice seq).
Proof.
  intros w v w'. destruct seq as [|x seq]; [done|].
  destruct (choice_unfold (x :: seq) w) as (y & _ & ->); [done|].
  intros [= _ <-]. simpl. lia.
Qed.

Lemma ticks_font_probe :
  ticks 0 (try_except (ImageFont_truetype "arial.ttf" 22) ImageFont_load_default).
Proof. intros w f w'. rewrite font_probe. intros [= _ <-]. lia. Qed.

Section Operators_draws.
Context `{Pillow}.

Ltac ticks_go :=
  first
    [ apply ticks_ret
    | apply ticks_randint
    | apply ticks_choice
    | apply ticks_font_probe
    | eapply ticks_bind; [ticks_go | intros ?; ticks_go | reflexivity]
    | match goal with
      | |- context [match ?s with ellipse => _ | rectangle => _ end] =>
          destruct s; ticks_go
      end ].

Lemma call_ticks m img : ticks (random_calls m) (call m img).
Proof.
  destruct m; simpl;
    [ unfold apply_black_box | unfold apply_fake_text | unfold apply_blur_patch
    | unfold apply_whiteout | unfold overlay_random_shape
    | unfold apply_fake_signature ];
    cbn [range seq for_in mapM]; ticks_go.
Qed.

(** X15: on an image that meets its minimum size an operator makes a fixed
    number of calls of [random.randint] and [random.choice]: 4 for the
    black box, 2 for fake text, 2 for blur, 4 for whiteout, 5 for the shape
    overlay and 17 for the signature; a [tamper_image] that returns makes
    one more, the choice of the operator.  (Calls are counted, not the raw
    words the library reads inside a call.) *)
Theorem operators_make_fixed_random_calls m img w :
  fits m img →
  (∃ img' w', call m img w = (Ok img', w') ∧
              cursor w' = (cursor w + random_calls m)%nat) ∧
  (∀ src out m' w',
     source_image w src img →
     choice tamper_methods w = (Ok m', set_cursor (S (cursor w)) w) →
     tamper_image (os_path_join REAL_DIR src) (os_path_join TAMPERED_DIR out) w
     = (Ok tt, w') →
     cursor w' = (cursor w + 1 + random_calls m')%nat).
Proof.
  intros Hfit. split.
  - destruct (proj2 (call_returns_iff m img w) Hfit) as (img' & w' & E).
    exists img', w'. split; [done|]. by apply (call_ticks m img w img' w').
  - intros src out m' w' Hsrc Hc E.
    destruct (tamper_image_run w src out img Hsrc) as (m2 & Hm2 & E2).
    destruct (choice_unfold tamper_methods w) as (m3 & Hm3 & Hc3); [done|].
    change (Z.of_nat (length tamper_methods)) with 6 in Hm3.
    assert (m2 = m') as -> by congruence.
    rewrite E2 in E.
    destruct (call m' img (set_cursor (S (cursor w)) w)) as [[img'|e] w2] eqn:Ec;
      [|done].
    injection E as <-. simpl.
    rewrite (call_ticks m' img _ _ _ Ec). simpl. lia.
Qed.

Lemma point_drawn (x y : Z) (i : nat) :
  rng_op (λ pt : Z * Z, pt.1 = x + Z.of_nat i * 15 ∧ y - 10 ≤ pt.2 ≤ y + 10)
    (randint (-10) 10 ≫= λ j, mret (x + Z.of_nat i * 15, y + j)).
Proof.
  eapply rng_op_bind; [apply rng_op_randint | intros j Hj].
  apply rng_op_ret. simpl in *. lia.
Qed.

Lemma rng_op_mapM_seq {B} (Q : nat → B → Prop) (f : nat → M B) (start len : nat) :
  (∀ i, rng_op (Q i) (f i)) →
  rng_op (λ out, length out = len ∧ ∀ i b, out !! i = Some b → Q (start + i)%nat b)
         (mapM f (seq start len)).
Proof.
  intros Hf. revert start. induction len as [|len IH]; intros start; simpl.
  - apply rng_op_ret. split; [done|]. by intros i b.
  - eapply rng_op_bind; [apply Hf | intros b0 Hb0].
    eapply rng_op_bind; [apply (IH (S start)) | intros out [Hlen Hout]].
    apply rng_op_ret. split; [by rewrite <- Hlen|].
    intros [|i] b Hb; simplify_eq/=.
    + by rewrite Nat.add_0_r.
    + replace (start + S i)%nat with (S start + i)%nat by lia. by apply Hout.
Qed.

Lemma stroke_drawn (x y : Z) :
  rng_op (stroke x y)
    (mapM (λ i : nat, randint (-10) 10 ≫= λ j, mret (x + Z.of_nat i * 15, y + j))
          (range 5)).
Proof.
  exact (rng_op_mapM_seq
           (λ i (pt : Z * Z), pt.1 = x + Z.of_nat i * 15 ∧ y - 10 ≤ pt.2 ≤ y + 10)
           _ 0 5 (point_drawn x y)).
Qed.

Lemma stroke_step (x y : Z) (s : image) :
  rng_op (λ s', ∃ c, stroke x y c ∧ s' = draw_line c black 2 s)
    (mapM (λ i : nat, randint (-10) 10 ≫= λ j, mret (x + Z.of_nat i * 15, y + j))
          (range 5)
     ≫= λ curve, mret (draw_line curve black 2 s)).
Proof.
  eapply rng_op_bind; [apply stroke_drawn | intros c Hc].
  apply rng_op_ret. by exists c.
Qed.

(** X16: the forged signature, on an image at least 300 pixels wide: three
    polylines are drawn in black, width 2, one over the other; each has
    five points, 15 pixels apart from the start column [x], every one
    within 10 pixels of the start row [y]; all points lie between columns
    100 and [width - 140] and between rows [height - 160] and
    [height - 70]. *)
Theorem signature_strokes img w :
  300 ≤ width img →
  ∃ x y c1 c2 c3 w',
    apply_fake_signature img w
    = (Ok (draw_line c3 black 2 (draw_line c2 black 2 (draw_line c1 black 2 img))),
       w') ∧
    100 ≤ x ≤ width img - 200 ∧ height img - 150 ≤ y ≤ height img - 80 ∧
    stroke x y c1 ∧ stroke x y c2 ∧ stroke x y c3 ∧
    ∀ p, p ∈ c1 ++ c2 ++ c3 →
         100 ≤ p.1 ≤ width img - 140 ∧ height img - 160 ≤ p.2 ≤ height img - 70.
Proof.
  intros Hw.
  assert (rng_op
    (λ img', ∃ x y c1 c2 c3,
       img' = draw_line c3 black 2 (draw_line c2 black 2 (draw_line c1 black 2 img)) ∧
       100 ≤ x ≤ width img - 200 ∧ height img - 150 ≤ y ≤ height img - 80 ∧
       stroke x y c1 ∧ stroke x y c2 ∧ stroke x y c3)
    (apply_fake_signature img)) as Hspec.
  { unfold apply_fake_signature.
    eapply rng_op_bind; [apply rng_op_randint | intros x Hx].
    eapply rng_op_bind; [apply rng_op_randint | intros y Hy].
    cbn [range seq for_in].
    eapply rng_op_bind; [apply stroke_step | intros s1 (c1 & Hc1 & ->)].
    eapply rng_op_bind; [apply stroke_step | intros s2 (c2 & Hc2 & ->)].
    eapply rng_op_bind; [apply stroke_step | intros s3 (c3 & Hc3 & ->)].
    apply rng_op_ret. by exists x, y, c1, c2, c3. }
  assert (fits fn_apply_fake_signature img) as Hfit by (simpl; lia).
  destruct (proj2 (call_returns_iff fn_apply_fake_signature img w) Hfit)
    as (img' & w' & E).
  simpl call in E.
  destruct (rng_op_run _ _ _ _ _ Hspec E)
    as (x & y & c1 & c2 & c3 & -> & Hx & Hy & Hc1 & Hc2 & Hc3).
  exists x, y, c1, c2, c3, w'. split_and!; try done; try lia.
  assert (∀ c p, stroke x y c → p ∈ c →
            100 ≤ p.1 ≤ width img - 140 ∧
            height img - 160 ≤ p.2 ≤ height img - 70) as Hin.
  { intros c p [Hlen Hpts] Hp. apply list_elem_of_lookup_1 in Hp as [i Hi].
    destruct (Hpts i p Hi) as [Hp1 Hp2].
    apply lookup_lt_Some in Hi. rewrite Hlen in Hi. lia. }
  intros p Hp. rewrite !elem_of_app in Hp. destruct Hp as [?|[?|?]]; eauto.
Qed.

End Operators_draws.

Section Operators_shape.
Context `{Pillow}.

(** X17: the shape overlay, on an image of at least 150 by 150 pixels: one
    ellipse or one rectangle is drawn, in blue, purple or grey, in a square
    bounding box of side 30 to 60 whose corners all lie inside the image,
    at least 50 pixels from the left and top edges and 40 from the right
    and bottom ones. *)
Theorem overlay_shape_in_bounds img w :
  150 ≤ width img → 150 ≤ height img →
  ∃ x y size c img' w',
    overlay_random_shape img w = (Ok img', w') ∧
    (img' = draw_ellipse x y (x + size) (y + size) c img ∨
     img' = draw_rectangle x y (x + size) (y + size) c img) ∧
    (c = blue ∨ c = purple ∨ c = grey) ∧ 30 ≤ size ≤ 60 ∧
    50 ≤ x ∧ x + size ≤ width img - 40 ∧
    50 ≤ y ∧ y + size ≤ height img - 40 ∧
    in_image img x y ∧ in_image img (x + size) (y + size).
Proof.
  intros Hw Hh.
  assert (rng_op
    (λ img', ∃ x y size c,
       (img' = draw_ellipse x y (x + size) (y + size) c img ∨
        img' = draw_rectangle x y (x + size) (y + size) c img) ∧
       c ∈ [blue; purple; grey] ∧ 30 ≤ size ≤ 60 ∧
       50 ≤ x ≤ width img - 100 ∧ 50 ≤ y ≤ height img - 100)
    (overlay_random_shape img)) as Hspec.
  { unfold overlay_random_shape.
    eapply rng_op_bind; [apply rng_op_randint | intros x Hx].
    eapply rng_op_bind; [apply rng_op_randint | intros y Hy].
    eapply rng_op_bind; [apply rng_op_randint | intros size Hsize].
    eapply rng_op_bind; [by apply rng_op_choice | intros shape _].
    eapply rng_op_bind; [by apply rng_op_choice | intros c Hc].
    destruct shape; apply rng_op_ret; exists x, y, size, c; auto. }
  assert (fits fn_overlay_random_shape img) as Hfit by (simpl; lia).
  destruct (proj2 (call_returns_iff fn_overlay_random_shape img w) Hfit)
    as (img' & w' & E).
  simpl call in E.
  destruct (rng_op_run _ _ _ _ _ Hspec E)
    as (x & y & size & c & Hshape & Hc & Hsize & Hx & Hy).
  exists x, y, size, c, img', w'.
  split_and!; try done; try lia; try (unfold in_image; lia).
  rewrite !elem_of_cons in Hc. rewrite elem_of_nil in Hc. tauto.
Qed.

(** X18: an operator touches nothing but the position in the random
    stream: the directories, the installed fonts, the stream itself and
    standard output are the same after the call, whether it returned or
    raised. *)
Theorem operators_touch_only_the_stream m img w :
  let r := call m img w in
  real_dir r.2 = real_dir w ∧ tampered_dir r.2 = tampered_dir w ∧
  installed_fonts r.2 = installed_fonts w ∧ entropy r.2 = entropy w ∧
  stdout r.2 = stdout w.
Proof. cbv zeta. by destruct (call_outcome m img w) as [Hf _]. Qed.

(** X19: [tamper_image] saving into the output directory, whatever path it
    reads from: the source directory and standard output are never
    changed; when it returns, the output directory has gained or replaced
    exactly the entry named by the save path, which holds an image of the
    dimensions of the one that was opened; when it raises, the output
    directory is as before. *)
Theorem tamper_image_saves_one_entry (ip : path) (out : string) w :
  let r := tamper_image ip (os_path_join TAMPERED_DIR out) w in
  real_dir r.2 = real_dir w ∧ stdout r.2 = stdout w ∧
  match r.1 with
  | Ok _ =>
      ∃ img img',
        Image_open ip w = (Ok img, w) ∧ same_size img' img ∧
        tampered_dir r.2 = <[out := img']> (tampered_dir w)
  | Raise _ => tampered_dir r.2 = tampered_dir w
  end.
Proof.
  cbv zeta.
  destruct (Image_open ip w) as [[img|e] w0] eqn:Eo.
  2:{ rewrite (tamper_image_open_error ip _ w e); [done|]. by rewrite Eo. }
  assert (w0 = w) as -> by (by rewrite <- (Image_open_world ip w), Eo).
  unfold tamper_image. rewrite (bind_Ok _ _ _ _ _ Eo).
  destruct (choice_unfold tamper_methods w) as (m & _ & Hc); [done|].
  rewrite (bind_Ok _ _ _ _ _ Hc).
  destruct (call_outcome m img (set_cursor (S (cursor w)) w)) as [Hf Hout].
  destruct (call m img (set_cursor (S (cursor w)) w)) as [[img'|e] w2] eqn:Ec;
    simpl in Hf, Hout.
  - rewrite (bind_Ok _ _ _ _ _ Ec). simpl.
    destruct Hf as (Hr & Ht & _ & _ & Hs).
    split_and!; [done | done|]. exists img, img'. split_and!; [done | | by rewrite Ht].
    case_decide; [|done]. by destruct Hout as (? & [= <-] & ?).
  - rewrite (bind_Raise _ _ _ _ _ Ec). simpl.
    by destruct Hf as (Hr & Ht & _ & _ & Hs).
Qed.

(** X20: the count matters only through [min(n, M)]: two counts with the
    same minimum against the number of entries make the driver behave the
    same, result and world; every count at or above the number of entries
    is as good as any other. *)
Theorem count_matters_through_min (n1 n2 : Z) w entries :
  real_dir w = Listing entries →
  n1 `min` Z.of_nat (size entries) = n2 `min` Z.of_nat (size entries) →
  generate_tampered_images n1 w = generate_tampered_images n2 w.
Proof.
  intros Hes Hmin. unfold generate_tampered_images.
  rewrite !(bind_Ok _ _ _ _ _ (listdir_real w entries Hes)).
  destruct (listed_names entries) as (_ & Hlen & _).
  by rewrite Hlen, Hmin.
Qed.

End Operators_shape.

(** X21: output names never collide: [tampered_i.jpg] and [tampered_j.jpg]
    are the same name only for [i = j], so a batch of [k] images occupies
    [k] distinct names. *)
Theorem output_names_never_collide (i j k : nat) :
  (tampered_name i = tampered_name j ↔ i = j) ∧ size (tampered_names k) = k.
Proof.
  split; [|apply size_tampered_names].
  split; [apply tampered_name_inj | by intros ->].
Qed.

(** X22: the command-line tool and the upload script give the same label
    to the same score; the label is one of the two texts; a score that is
    not a number is labelled as a real document; and the label is monotone:
    if a score is labelled tampered, so is every larger one. *)
Theorem frontends_agree (tensor logit : Type)
    (sigmoid_item : logit → pyfloat) (model model' : tensor → logit)
    (x x' : tensor) (dev dev' : device) :
  let cli := infer.main_label tensor logit sigmoid_item in
  let ui := app.label tensor logit sigmoid_item in
  ui model x = cli model x dev ∧
  (cli model x dev = "Tampered ❌" ∨ cli model x dev = "Real ✅") ∧
  (sigmoid_item (model x) = NaN → cli model x dev = "Real ✅") ∧
  (∀ q q', sigmoid_item (model x) = Finite q →
           sigmoid_item (model' x') = Finite q' → (q <= q')%Q →
           cli model x dev = "Tampered ❌" → cli model' x' dev' = "Tampered ❌").
Proof.
  cbv zeta. unfold infer.main_label, app.label, app.pred, infer.predict. simpl.
  split_and!.
  - done.
  - destruct (float_gt _ half); simpl; auto.
  - by intros ->.
  - intros q q' -> -> Hle. simpl.
    destruct (Qlt_le_dec (1 # 2) q) as [Hlt|Hge]; simpl; [|done]. intros _.
    destruct (Qlt_le_dec (1 # 2) q') as [Hlt'|Hge']; simpl; [done|].
    exfalso. apply (Qlt_not_le _ _ Hlt). exact (Qle_trans _ _ _ Hle Hge').
Qed.

(** ** The further properties on sample inputs *)

Lemma negative_count_raises_witness :
  -1 < 0 ∧
  ∃ e, @generate_tampered_images sample_pillow (-1) (world_of two_invoices 0)
       = (Raise e, world_of two_invoices 0) ∧ e = ValueError.
Proof.
  split; [lia|].
  destruct (@negative_count_raises sample_pillow (-1) (world_of two_invoices 0))
    as (e & E & He & _); [lia|].
  exists e. split; [exact E|]. apply He. exists two_invoices. reflexivity.
Defined.

Lemma summary_is_accurate_witness :
  let r := @generate_tampered_images sample_pillow 5 (world_of two_invoices 7) in
  r.1 = Ok tt ∧
  stdout r.2 = [] ++ [summary 2] ∧
  is_Some (tampered_dir r.2 !! tampered_name 1).
Proof.
  cbv zeta.
  assert ((@generate_tampered_images sample_pillow 5 (world_of two_invoices 7)).1
          = Ok tt) as Hok by (vm_compute; reflexivity).
  split; [exact Hok|].
  destruct (@summary_is_accurate sample_pillow 5 (world_of two_invoices 7) Hok)
    as (entries & Hes & _ & Hout & Hfiles).
  injection Hes as <-. rewrite size_two_invoices in Hout, Hfiles.
  split; [exact Hout|]. apply Hfiles. simpl. lia.
Defined.

Lemma zero_count_reports_zero_witness :
  real_dir (world_of two_invoices 7) = Listing two_invoices ∧
  @generate_tampered_images sample_pillow 0 (world_of two_invoices 7)
  = print "✅ Generated 0 tampered images in data/tampered/" (world_of two_invoices 7).
Proof.
  split; [reflexivity|].
  exact (@zero_count_reports_zero sample_pillow (world_of two_invoices 7)
           two_invoices eq_refl).
Defined.

Lemma undecodable_entry_aborts_witness :
  sample (map_to_list mixed_source).*1
         (2 `min` Z.of_nat (length (map_to_list mixed_source).*1))
         (world_of mixed_source 0)
  = (Ok (["a.png"] ++ "notes.txt" :: []), set_cursor 2 (world_of mixed_source 0)) ∧
  mixed_source !! "notes.txt" = Some OtherFile ∧
  ∃ w', @generate_tampered_images sample_pillow 2 (world_of mixed_source 0)
        = (Raise UnidentifiedImageError, w') ∧
        stdout w' = [] ∧
        dom (tampered_dir w') = ∅ ∪ tampered_names 1.
Proof.
  assert (sample (map_to_list mixed_source).*1
            (2 `min` Z.of_nat (length (map_to_list mixed_source).*1))
            (world_of mixed_source 0)
          = (Ok (["a.png"] ++ "notes.txt" :: []),
             set_cursor 2 (world_of mixed_source 0))) as Es
    by (vm_compute; reflexivity).
  assert (mixed_source !! "notes.txt" = Some OtherFile) as Hbad
    by (vm_compute; reflexivity).
  split; [exact Es|]. split; [exact Hbad|].
  destruct (@undecodable_entry_aborts sample_pillow 2 (world_of mixed_source 0)
              mixed_source ["a.png"] "notes.txt" [] _ OtherFile eq_refl Es)
    as (w' & E & Hout & Hdom & _).
  - intros src Hsrc. apply list_elem_of_singleton in Hsrc. subst src.
    exists (ImageFile (solid 300 200 white)).
    split; [vm_compute; reflexivity | simpl; lia].
  - exact Hbad.
  - intros Hd. exact Hd.
  - exists w'. split; [exact E|]. split; [exact Hout | exact Hdom].
Defined.

Lemma large_count_uses_every_source_witness :
  let r := @generate_tampered_images sample_pillow 600 (world_of two_invoices 7) in
  Z.of_nat (size two_invoices) ≤ 600 ∧
  r.1 = Ok tt ∧
  ∃ j img', tampered_dir r.2 !! tampered_name j = Some img' ∧
            same_size img' (solid 400 300 black).
Proof.
  cbv zeta. split; [rewrite size_two_invoices; lia|].
  destruct (@large_count_uses_every_source sample_pillow 600 (world_of two_invoices 7)
              two_invoices eq_refl two_invoices_roomy)
    as (Hok & sel & _ & _ & Hall).
  { rewrite size_two_invoices. lia. }
  split; [exact Hok|].
  destruct (Hall "b.png" (ImageFile (solid 400 300 black)))
    as (j & img & img' & _ & _ & Himg & Hlk & Hsz); [vm_compute; reflexivity|].
  injection Himg as <-. exists j, img'. split; [exact Hlk | exact Hsz].
Defined.

Lemma smaller_rerun_leaves_stale_witness :
  let r1 := @generate_tampered_images sample_pillow 2 (world_of two_invoices 7) in
  let r2 := @generate_tampered_images sample_pillow 1 r1.2 in
  0 ≤ 1 ≤ 2 ∧ r2.1 = Ok tt ∧
  is_Some (tampered_dir r1.2 !! tampered_name 1) ∧
  tampered_dir r2.2 !! tampered_name 1 = tampered_dir r1.2 !! tampered_name 1.
Proof.
  cbv zeta. split; [lia|].
  destruct (@smaller_rerun_leaves_stale sample_pillow 2 1 (world_of two_invoices 7)
              two_invoices eq_refl two_invoices_roomy)
    as (Hok & _ & Hstale); [lia|].
  split; [exact Hok|]. apply Hstale. rewrite size_two_invoices. simpl. lia.
Defined.

Lemma black_box_geometry_witness :
  let img := solid 256 256 white in
  100 ≤ width img ∧ 100 ≤ height img ∧
  ∃ x1 y1 x2 y2 w',
    apply_black_box img (world_of ∅ 0)
    = (Ok (draw_rectangle x1 y1 x2 y2 black img), w') ∧
    in_image img x1 y1 ∧ px (draw_rectangle x1 y1 x2 y2 black img) x1 y1 = black.
Proof.
  cbv zeta. split; [simpl; lia|]. split; [simpl; lia|].
  destruct (black_box_geometry (solid 256 256 white) (world_of ∅ 0))
    as (x1 & y1 & x2 & y2 & w' & E & Hin & Hpx & _); [simpl; lia | simpl; lia|].
  exists x1, y1, x2, y2, w'. split; [exact E|]. split; [exact Hin | exact Hpx].
Defined.

Lemma whiteout_geometry_witness :
  let img := solid 300 200 black in
  300 ≤ width img ∧ 200 ≤ height img ∧
  ∃ x1 y1 x2 y2 w',
    apply_whiteout img (world_of ∅ 0)
    = (Ok (draw_rectangle x1 y1 x2 y2 white img), w') ∧
    x2 ≤ 250 ∧ y2 ≤ 140.
Proof.
  cbv zeta. split; [simpl; lia|]. split; [simpl; lia|].
  destruct (whiteout_geometry (solid 300 200 black) (world_of ∅ 0))
    as (x1 & y1 & x2 & y2 & w' & E & _ & Hx & _ & Hy & _); [simpl; lia | simpl; lia|].
  exists x1, y1, x2, y2, w'. simpl in Hx, Hy.
  split; [exact E|]. split; lia.
Defined.

Lemma blur_patch_is_local_witness :
  let img := solid 250 150 white in
  250 ≤ width img ∧ 150 ≤ height img ∧
  ∃ x0 y0 w',
    @apply_blur_patch sample_pillow img (world_of ∅ 0)
    = (Ok (paste (@GaussianBlur sample_pillow 5 (crop x0 y0 (x0 + 150) (y0 + 50) img))
                 x0 y0 img), w') ∧
    x0 = 50 ∧ y0 = 50.
Proof.
  cbv zeta. split; [simpl; lia|]. split; [simpl; lia|].
  destruct (@blur_patch_is_local sample_pillow (solid 250 150 white) (world_of ∅ 0))
    as (x0 & y0 & w' & E & Hx1 & Hx2 & Hy1 & Hy2 & _); [simpl; lia | simpl; lia|].
  exists x0, y0, w'. simpl in Hx2, Hy2. split; [exact E|]. split; lia.
Defined.

Lemma fake_text_anchor_and_font_witness :
  let img := solid 300 200 white in
  let w := World (Listing ∅) ∅ arial_only (counter 0) 0 [] in
  250 ≤ width img ∧ 150 ≤ height img ∧
  ∃ x y w',
    @apply_fake_text sample_pillow img w
    = (Ok (@draw_text sample_pillow x y "FAKE $999" red (TrueType "arial.ttf" 22) img),
       w').
Proof.
  cbv zeta. split; [simpl; lia|]. split; [simpl; lia|].
  destruct (@fake_text_anchor_and_font sample_pillow (solid 300 200 white)
              (World (Listing ∅) ∅ arial_only (counter 0) 0 []))
    as (x & y & w' & E & _); [simpl; lia | simpl; lia|].
  exists x, y, w'. exact E.
Defined.

Lemma operators_make_fixed_random_calls_witness :
  let img := solid 300 200 white in
  fits fn_apply_fake_signature img ∧
  ∃ img' w', @call sample_pillow fn_apply_fake_signature img (world_of ∅ 0)
             = (Ok img', w') ∧ cursor w' = 17%nat.
Proof.
  cbv zeta.
  assert (fits fn_apply_fake_signature (solid 300 200 white)) as Hfit
    by (simpl; lia).
  split; [exact Hfit|].
  destruct (@operators_make_fixed_random_calls sample_pillow fn_apply_fake_signature
              (solid 300 200 white) (world_of ∅ 0) Hfit)
    as ((img' & w' & E & Hc) & _).
  exists img', w'. split; [exact E | exact Hc].
Defined.

Lemma signature_strokes_witness :
  let img := solid 300 200 white in
  300 ≤ width img ∧
  ∃ c1 c2 c3 w',
    @apply_fake_signature sample_pillow img (world_of ∅ 0)
    = (Ok (@draw_line sample_pillow c3 black 2
             (@draw_line sample_pillow c2 black 2
                (@draw_line sample_pillow c1 black 2 img))), w') ∧
    length c1 = 5%nat ∧ length c2 = 5%nat ∧ length c3 = 5%nat.
Proof.
  cbv zeta. split; [simpl; lia|].
  destruct (@signature_strokes sample_pillow (solid 300 200 white) (world_of ∅ 0))
    as (x & y & c1 & c2 & c3 & w' & E & _ & _ & [H1 _] & [H2 _] & [H3 _] & _);
    [simpl; lia|].
  exists c1, c2, c3, w'. split; [exact E|]. split; [exact H1|]. split; [exact H2 | exact H3].
Defined.

Lemma overlay_shape_in_bounds_witness :
  let img := solid 150 150 white in
  150 ≤ width img ∧ 150 ≤ height img ∧
  ∃ x y size img' w',
    @overlay_random_shape sample_pillow img (world_of ∅ 0) = (Ok img', w') ∧
    x + size ≤ 110 ∧ y + size ≤ 110 ∧ 30 ≤ size ≤ 60.
Proof.
  cbv zeta. split; [simpl; lia|]. split; [simpl; lia|].
  destruct (@overlay_shape_in_bounds sample_pillow (solid 150 150 white) (world_of ∅ 0))
    as (x & y & size & c & img' & w' & E & _ & _ & Hsize & Hx1 & Hx2 & Hy1 & Hy2 & _);
    [simpl; lia | simpl; lia|].
  exists x, y, size, img', w'. simpl in Hx2, Hy2.
  split; [exact E|]. split; [lia|]. split; [lia | exact Hsize].
Defined.

Lemma count_matters_through_min_witness :
  600 `min` Z.of_nat (size two_invoices) = 2 `min` Z.of_nat (size two_invoices) ∧
  @generate_tampered_images sample_pillow 600 (world_of two_invoices 7)
  = @generate_tampered_images sample_pillow 2 (world_of two_invoices 7).
Proof.
  assert (600 `min` Z.of_nat (size two_invoices)
          = 2 `min` Z.of_nat (size two_invoices)) as Hmin
    by (rewrite size_two_invoices; reflexivity).
  split; [exact Hmin|].
  exact (@count_matters_through_min sample_pillow 600 2 (world_of two_invoices 7)
           two_invoices eq_refl Hmin).
Defined.

